(** * Advent-of-Code harness: runner, fixture loader and three solved days

    A shallow embedding of [advent.py] (fixture loader and puzzle runner),
    [2019/day1.py] (fuel), [2020/day12.py] (ship navigation) and
    [2020/day15.py] (memory game), with the properties the specification
    states about them.

    Python integers are [Z]; [//] on a positive divisor is [Z.div] (both
    round towards minus infinity).  A Python exception is a value of [exn]
    and a call that may raise returns a [result]. *)

From Stdlib Require Import ZArith List String Ascii Bool Lia.
From Stdlib Require Import DecimalString DecimalPos DecimalN DecimalZ.
From stdpp Require Import base option list gmap.

Import ListNotations.
Local Open Scope Z_scope.

(** ** The fragment of the Python runtime the programs rely on *)

Module Py.

(** A Python [str] as the list of its code points.  [lit] turns an ASCII
    literal of this file into one. *)
Abbreviation str := (list N).

Definition lit (s : string) : str := map N_of_ascii (list_ascii_of_string s).

(** The exceptions that the modelled code can raise. *)
Inductive exn : Type :=
| ValueError
| KeyError
| IndexError
| RecursionError
| FileNotFoundError
| EOFError
| UnicodeEncodeError
| Exception (msg : str).

Inductive result (A : Type) : Type :=
| Ok (a : A)
| Raise (e : exn).
Arguments Ok {A} a.
Arguments Raise {A} e.

#[export] Instance result_ret : MRet result := fun A a => Ok a.
#[export] Instance result_bind : MBind result := fun A B f m =>
  match m with
  | Ok a => f a
  | Raise e => Raise e
  end.

Definition raises {A} (m : result A) : Prop := exists e, m = Raise e.

(** *** [int(s)] in base 10

    The text of a puzzle line is a [string] whose characters are the
    code points 0..255.  [int] skips surrounding whitespace, reads an
    optional sign and then decimal digits, between which single
    underscores may stand.  In this character range the only decimal
    digits are ['0'..'9']; the whitespace that [int] skips is TAB..CR,
    SPACE and the two non-ASCII spaces NEL (0x85) and NBSP (0xA0). *)

Definition int_space (c : ascii) : bool :=
  let n := N_of_ascii c in
  ((9 <=? n) && (n <=? 13) || (n =? 32) || (n =? 133) || (n =? 160))%N.

Definition is_digit (c : ascii) : bool :=
  let n := N_of_ascii c in ((48 <=? n) && (n <=? 57))%N.

Definition digit_value (c : ascii) : Z := Z.of_N (N_of_ascii c) - 48.

Definition is_underscore (c : ascii) : bool := (N_of_ascii c =? 95)%N.

Fixpoint skip_space (s : string) : string :=
  match s with
  | String c s' => if int_space c then skip_space s' else s
  | EmptyString => s
  end.

(** [scan_digits prev_us acc n s] consumes digits and underscores;
    [prev_us] tells that the character just read was an underscore, [n]
    counts the digits read.  Two underscores in a row, or one at the end
    of the digits, are refused. *)
Fixpoint scan_digits (prev_us : bool) (acc : Z) (n : nat) (s : string)
  : option (Z * nat * string) :=
  match s with
  | String c s' =>
      if is_digit c then scan_digits false (10 * acc + digit_value c) (S n) s'
      else if is_underscore c then
        if prev_us then None else scan_digits true acc n s'
      else if prev_us then None else Some (acc, n, s)
  | EmptyString => if prev_us then None else Some (acc, n, s)
  end.

Definition unsigned_int (s : string) : option Z :=
  match s with
  | String c _ =>
      if is_underscore c then None
      else match scan_digits false 0 O s with
           | Some (v, S _, rest) =>
               match skip_space rest with
               | EmptyString => Some v
               | _ => None
               end
           | _ => None
           end
  | EmptyString => None
  end.

Definition int (s : string) : result Z :=
  let body := skip_space s in
  let parsed :=
    match body with
    | String "+" s' => unsigned_int s'
    | String "-" s' => Z.opp <$> unsigned_int s'
    | _ => unsigned_int body
    end in
  match parsed with
  | Some v => Ok v
  | None => Raise ValueError
  end.

End Py.

Import Py.

(** ** 2019, day 1: fuel for the modules *)

Module Day1.

Definition calculate_module_fuel (mass : Z) : Z := mass / 3 - 2.

Definition is_empty (line : string) : bool :=
  match line with EmptyString => true | _ => false end.

(** [part1]: the sum over the non-empty lines. *)
Fixpoint part1_from (sum : Z) (input : list string) : result Z :=
  match input with
  | [] => Ok sum
  | line :: rest =>
      if is_empty line then part1_from sum rest
      else m ← int line; part1_from (sum + calculate_module_fuel m) rest
  end.

Definition part1 (input : list string) : result Z := part1_from 0 input.

(** One pass through the head of
    [while (mass := calculate_module_fuel(mass)) > 0: sum += mass]:
    the assignment, the test and, when it holds, the body.  [inl] is the
    state with which the loop goes on, [inr] the sum with which it
    exits. *)
Definition loop_step (mass sum : Z) : (Z * Z) + Z :=
  let mass' := calculate_module_fuel mass in
  if 0 <? mass' then inl (mass', sum + mass') else inr sum.

(** The loop, run for at most [fuel] passes; [None] when they do not
    suffice. *)
Fixpoint while_loop (fuel : nat) (mass sum : Z) : option Z :=
  match fuel with
  | O => None
  | S fuel' =>
      match loop_step mass sum with
      | inl (mass', sum') => while_loop fuel' mass' sum'
      | inr sum' => Some sum'
      end
  end.

(** [part2]: stops at the first empty line.  Every inner loop gets
    [fuel] passes; the outer [option] is [None] when one of them needs
    more. *)
Fixpoint part2_from (fuel : nat) (sum : Z) (input : list string)
  : option (result Z) :=
  match input with
  | [] => Some (Ok sum)
  | line :: rest =>
      if is_empty line then Some (Ok sum)
      else match int line with
           | Raise e => Some (Raise e)
           | Ok mass =>
               match while_loop fuel mass sum with
               | Some sum' => part2_from fuel sum' rest
               | None => None
               end
           end
  end.

Definition part2 (fuel : nat) (input : list string) : option (result Z) :=
  part2_from fuel 0 input.

(** The [j]-th fuel increment of a module (counting from 0): the formula
    applied [j + 1] times to its mass. *)
Definition increment (mass : Z) (j : nat) : Z :=
  Nat.iter (S j) calculate_module_fuel mass.

Definition Zsum (l : list Z) : Z := fold_right Z.add 0 l.

End Day1.

(** ** 2020, day 12: the ship *)

Module Day12.

Inductive Direction : Type := N | S | E | W | L | R | F.

#[export] Instance Direction_eq_dec : EqDecision Direction.
Proof. solve_decision. Defined.

Record Action : Type := { dir : Direction; dist : Z }.

(** A Python [dict] with few keys, as the list of its items. *)
Fixpoint dict_get {K V} `{EqDecision K} (d : list (K * V)) (k : K)
  : result V :=
  match d with
  | [] => Raise KeyError
  | (k', v) :: d' => if decide (k' = k) then Ok v else dict_get d' k
  end.

Definition cardinal_dirs_R : list (Direction * Direction) :=
  [(N, E); (E, S); (S, W); (W, N)].

Definition cardinal_dirs_L : list (Direction * Direction) :=
  [(N, W); (E, N); (S, E); (W, S)].

Record Ship : Type := { direction : Direction; pos : Z * Z }.

(** [Ship()] *)
Definition new_ship : Ship := {| direction := E; pos := (0, 0) |}.

(** [for _ in range(n): self.direction = table[self.direction]] *)
Fixpoint turn (table : list (Direction * Direction)) (n : nat)
  (d : Direction) : result Direction :=
  match n with
  | O => Ok d
  | Datatypes.S n' => d' ← dict_get table d; turn table n' d'
  end.

(** [range(k)] has [Z.to_nat k] elements (none when [k <= 0]). *)
Definition range_len (k : Z) : nat := Z.to_nat k.

(** [Ship.move].  The [F] branch calls [move] again with the heading as
    the action; [depth] is the number of such nested calls the
    interpreter still allows, after which it raises [RecursionError].
    The seven branches cover the enumeration, so that the final [else] of
    the source is never taken. *)
Fixpoint move (depth : nat) (s : Ship) (action : Action) : result Ship :=
  let '(x, y) := pos s in
  match dir action with
  | N => Ok {| direction := direction s; pos := (x, y - dist action) |}
  | S => Ok {| direction := direction s; pos := (x, y + dist action) |}
  | E => Ok {| direction := direction s; pos := (x - dist action, y) |}
  | W => Ok {| direction := direction s; pos := (x + dist action, y) |}
  | F =>
      match depth with
      | O => Raise RecursionError
      | Datatypes.S depth' =>
          move depth' s {| dir := direction s; dist := dist action |}
      end
  | R =>
      d ← turn cardinal_dirs_R (range_len (dist action / 90)) (direction s);
      Ok {| direction := d; pos := pos s |}
  | L =>
      d ← turn cardinal_dirs_L (range_len (dist action / 90)) (direction s);
      Ok {| direction := d; pos := pos s |}
  end.

(** [Direction[name]]: the member of the enumeration with that name. *)
Definition Direction_of_name (name : ascii) : result Direction :=
  match name with
  | "N"%char => Ok N
  | "S"%char => Ok S
  | "E"%char => Ok E
  | "W"%char => Ok W
  | "L"%char => Ok L
  | "R"%char => Ok R
  | "F"%char => Ok F
  | _ => Raise KeyError
  end.

(** [Action(Direction[line[0]], int(line[1:]))] *)
Definition parse_action (line : string) : result Action :=
  match line with
  | EmptyString => Raise IndexError
  | String c rest =>
      d ← Direction_of_name c;
      n ← int rest;
      Ok {| dir := d; dist := n |}
  end.

Fixpoint sail (depth : nat) (s : Ship) (input : list string) : result Ship :=
  match input with
  | [] => Ok s
  | line :: rest =>
      action ← parse_action line;
      s' ← move depth s action;
      sail depth s' rest
  end.

Definition part1 (depth : nat) (input : list string) : result Z :=
  s ← sail depth new_ship input;
  Ok (Z.abs (fst (pos s)) + Z.abs (snd (pos s))).

(** The four cardinal directions, and the two quarter turns as the
    specification words them. *)
Definition cardinal (d : Direction) : Prop := d = N \/ d = S \/ d = E \/ d = W.

Definition clockwise (d : Direction) : Direction :=
  match d with N => E | E => S | S => W | W => N | other => other end.

Definition counter_clockwise (d : Direction) : Direction :=
  match d with N => W | W => S | S => E | E => N | other => other end.

End Day12.

(** ** 2020, day 15: the memory game *)

Module Day15.

(** [s.split(',')] *)
Fixpoint split_comma (s : string) : list string :=
  match s with
  | EmptyString => [EmptyString]
  | String c s' =>
      if Ascii.eqb c ","%char then EmptyString :: split_comma s'
      else match split_comma s' with
           | w :: ws => String c w :: ws
           | [] => [String c EmptyString]
           end
  end.

Fixpoint map_int (ws : list string) : result (list Z) :=
  match ws with
  | [] => Ok []
  | w :: ws' => n ← int w; ns ← map_int ws'; Ok (n :: ns)
  end.

(** The variables that [play] and [produce] share: the dictionary
    [numbers_turns], [last], and the turn counter [i] of [play]. *)
Record game : Type := {
  numbers_turns : gmap Z (list Z);
  last : Z;
  i : Z
}.

(** [l[k]] for a list and an index that is not negative. *)
Definition item {A} (l : list A) (k : Z) : result A :=
  match l !! Z.to_nat k with
  | Some a => Ok a
  | None => Raise IndexError
  end.

(** [l[-1]] *)
Definition last_item {A} (l : list A) : result A :=
  match List.rev l with
  | a :: _ => Ok a
  | [] => Raise IndexError
  end.

(** [produce(value)]: records turn [i] for [value] and makes it [last]. *)
Definition produce (g : game) (value : Z) : result (Z * game) :=
  turns' ←
    match numbers_turns g !! value with
    | None => Ok [i g]
    | Some turns => t ← last_item turns; Ok [t; i g]
    end;
  Ok (value, {| numbers_turns := <[value := turns']> (numbers_turns g);
                last := value;
                i := i g |}).

(** One [next] on the generator [play()]: the code from one [yield] to
    the following one, the [i += 1] that follows the [yield] included.
    The [for] loop over [range(len(start))] yields while
    [i < len(start)]; from then on the [while True] loop does. *)
Definition next (start : list Z) (g : game) : result (Z * game) :=
  if i g <? Z.of_nat (length start) then
    n ← item start (i g);
    Ok (n, {| numbers_turns := <[n := [i g]]> (numbers_turns g);
              last := last g;
              i := i g + 1 |})
  else
    turns ←
      match numbers_turns g !! last g with
      | Some turns => Ok turns
      | None => Raise KeyError
      end;
    value ←
      if (length turns =? 1)%nat then Ok 0
      else match turns with
           | [t1; t2] => Ok (t2 - t1)
           | _ => Raise ValueError
           end;
    '(v, g') ← produce g value;
    Ok (v, {| numbers_turns := numbers_turns g'; last := last g';
              i := i g' + 1 |}).

(** The first [n] values of the generator, in order, and its state
    after them. *)
Fixpoint play (n : nat) (start : list Z) (g : game)
  : result (list Z * game) :=
  match n with
  | O => Ok ([], g)
  | S n' =>
      '(v, g') ← next start g;
      '(vs, g'') ← play n' start g';
      Ok (v :: vs, g'')
  end.

(** [next(itertools.islice(gen, k, None))]: the value after [k] others. *)
Definition islice_next (k : nat) (start : list Z) (g : game) : result Z :=
  '(_, g') ← play k start g;
  '(v, _) ← next start g';
  Ok v.

(** The state with which [play()] starts: every starting number mapped
    to the empty list, [last = start[-1]]. *)
Definition init (start : list Z) : result game :=
  l ← last_item start;
  Ok {| numbers_turns :=
          fold_left (fun m n => <[n := []]> m) start ∅;
        last := l;
        i := 0 |}.

Definition parse (input : list string) : result (list Z) :=
  match input with
  | [] => Raise IndexError
  | line :: _ => map_int (split_comma line)
  end.

Definition part1 (input : list string) : result Z :=
  start ← parse input;
  g ← init start;
  islice_next 2019 start g.

(** The first [n] numbers that the generator of [part1] produces. *)
Definition spoken (n : nat) (input : list string) : result (list Z) :=
  start ← parse input;
  g ← init start;
  '(vs, _) ← play n start g;
  Ok vs.

(** The rule of the game in the words of the specification, on the list
    [h] of the numbers spoken so far (oldest first): 0 when the last of
    them had not been spoken before, else the distance between its two
    most recent turns. *)
Fixpoint last_turn_of (v : Z) (rev_h : list Z) (turn : Z) : option Z :=
  match rev_h with
  | [] => None
  | w :: rest =>
      if decide (w = v) then Some turn else last_turn_of v rest (turn - 1)
  end.

Definition rule_next (h : list Z) : option Z :=
  match List.rev h with
  | [] => None
  | v :: before =>
      let t := Z.of_nat (length before) in
      match last_turn_of v before (t - 1) with
      | None => Some 0
      | Some t' => Some (t - t')
      end
  end.

(** What the variables of [part1] hold while the generator is in its
    [for] loop, after [k] starting numbers: each starting number is a key;
    one already read maps to its latest turn, the others to the empty
    list. *)
Definition starting (start : list Z) (l : Z) (k : nat) (g : game) : Prop :=
  i g = Z.of_nat k
  /\ last g = l
  /\ (forall v, numbers_turns g !! v = None -> ~ In v start)
  /\ (forall v ts, numbers_turns g !! v = Some ts ->
        In v start
        /\ ts = match last_turn_of v (rev (take k start)) (Z.of_nat k - 1) with
                | Some t => [t]
                | None => []
                end).

(** What they hold in the [while] loop, [rev_h] being the numbers produced
    so far, the latest first: a number is a key exactly when it was
    produced, the last turn of its list is its latest turn, and the list of
    the latest number holds its two latest turns, or its only one. *)
Definition playing (rev_h : list Z) (g : game) : Prop :=
  match rev_h with
  | [] => False
  | v0 :: before =>
      let t0 := Z.of_nat (length before) in
      i g = t0 + 1
      /\ last g = v0
      /\ (forall v, numbers_turns g !! v = None -> ~ In v rev_h)
      /\ (forall v ts, numbers_turns g !! v = Some ts ->
            exists t, last_item ts = Ok t /\ last_turn_of v rev_h t0 = Some t)
      /\ numbers_turns g !! v0
         = Some (match last_turn_of v0 before (t0 - 1) with
                 | None => [t0]
                 | Some t' => [t'; t0]
                 end)
  end.

End Day15.

(** ** The harness: [advent.py] *)

Module Advent.

Definition newline : N := 10%N.

(** [str.isspace] for one character: the code points that [strip]
    removes. *)
Definition isspace (c : N) : bool :=
  ((9 <=? c) && (c <=? 13) || (28 <=? c) && (c <=? 32)
   || (c =? 133) || (c =? 160) || (c =? 5760)
   || (8192 <=? c) && (c <=? 8202)
   || (c =? 8232) || (c =? 8233) || (c =? 8239) || (c =? 8287)
   || (c =? 12288))%N.

Fixpoint lstrip (s : str) : str :=
  match s with
  | c :: s' => if isspace c then lstrip s' else s
  | [] => []
  end.

Definition rstrip (s : str) : str := rev (lstrip (rev s)).

Definition strip (s : str) : str := rstrip (lstrip s).

Fixpoint startswith (s prefix : str) {struct prefix} : bool :=
  match prefix, s with
  | [], _ => true
  | p :: prefix', c :: s' => (c =? p)%N && startswith s' prefix'
  | _ :: _, [] => false
  end.

(** [s.replace(old, new)] for a non-empty [old]: the occurrences of
    [old] are found from the left and do not overlap.  [skip] is the
    number of characters of an occurrence still to be passed over. *)
Fixpoint replace_from (old new : str) (skip : nat) (s : str) : str :=
  match s with
  | [] => []
  | c :: s' =>
      match skip with
      | S k => replace_from old new k s'
      | O =>
          if startswith s old
          then new ++ replace_from old new (length old - 1) s'
          else c :: replace_from old new O s'
      end
  end.

Definition replace (s old new : str) : str := replace_from old new O s.

(** [f.readline()] on a file just opened: the text up to and with the
    first newline. *)
Fixpoint readline (text : str) : str :=
  match text with
  | [] => []
  | c :: text' => if (c =? newline)%N then [c] else c :: readline text'
  end.

(** [f.readlines()]: the lines of the text, each with its newline (the
    last one may lack it). *)
Fixpoint readlines (text : str) : list str :=
  match text with
  | [] => []
  | c :: text' =>
      if (c =? newline)%N then [c] :: readlines text'
      else match readlines text' with
           | [] => [[c]]
           | l :: ls => (c :: l) :: ls
           end
  end.

(** The files: the text of each existing path, as [open] in text mode
    presents it. *)
Abbreviation files := (gmap (list N) (list N)).

Definition open (fs : files) (filename : str) : result str :=
  match fs !! filename with
  | Some text => Ok text
  | None => Raise FileNotFoundError
  end.

Record PuzzleData : Type := {
  filename : str;
  is_test_file : bool   (* the truth value of the attribute *)
}.

Definition result_prefix : str := lit "Result: ".

Definition get_data (fs : files) (d : PuzzleData) : result (list str) :=
  text ← open fs (filename d);
  let lines := readlines text in
  Ok (if negb (is_test_file d) then lines else drop 2 lines).

Definition get_expected_result (fs : files) (d : PuzzleData)
  : result (option str) :=
  if negb (is_test_file d) then Ok None
  else
    text ← open fs (filename d);
    let first_line := strip (readline text) in
    if negb (startswith first_line result_prefix)
    then Raise (Exception (lit "Invalid test file " ++ filename d
                             ++ lit "; it should start with 'Result: '"))
    else Ok (Some (replace first_line result_prefix [])).

(** [read_test_file]: the console is the list [stdin] of the lines that
    [input()] will return; [input()] raises [EOFError] when none is
    left.  The first loop reads the puzzle lines up to an empty line or
    the end of the input and joins them with newlines.  The prompts it
    prints are left out. *)
Fixpoint read_content (content : str) (stdin : list str) : str * list str :=
  match stdin with
  | [] => (content, [])
  | line :: stdin' =>
      match line with
      | [] => (content, stdin')
      | _ =>
          read_content
            ((match content with [] => [] | _ => content ++ [newline] end)
               ++ line) stdin'
      end
  end.

(** [f"Result: {result}\nInput:\n{content}"] *)
Definition test_file_text (result content : str) : str :=
  result_prefix ++ result ++ [newline] ++ lit "Input:" ++ [newline] ++ content.

Definition read_test_file (stdin : list str) : Py.result (str * list str) :=
  let '(content, stdin') := read_content [] stdin in
  match stdin' with
  | [] => Raise EOFError
  | result :: stdin'' => Ok (test_file_text result content, stdin'')
  end.

(** *** [PuzzleRunner.run] *)

(** [str(x)] for the values the runner prints. *)
Class Str (A : Type) := to_str : A -> str.

#[export] Instance Z_Str : Str Z :=
  fun z => lit (NilZero.string_of_int (Z.to_int z)).

Definition check_mark : str := [32; 10004; 65039]%N.

Definition cross_mark : str := [32; 10060]%N.

Section Run.

(** The clock and the text of the elapsed time are left open: [Time]
    is a reading of [time.perf_counter()], [elapsed start stop] the
    text that [{:,}] gives for [int((stop - start) * 1000)]. *)
Context {Time : Type} (elapsed : Time -> Time -> str).

(** What [run] acts on: the clock, as the readings it will give, the
    lines printed so far, and the characters that the encoding of
    [sys.stdout] can encode. *)
Record world : Type := {
  clock : nat -> Time;
  reads : nat;
  stdout : list str;
  encodes : N -> bool
}.

Definition perf_counter (w : world) : Time * world :=
  (clock w (reads w),
   {| clock := clock w; reads := Datatypes.S (reads w); stdout := stdout w;
      encodes := encodes w |}).

(** A text that [sys.stdout] can encode, character by character. *)
Definition encodable (w : world) (line : str) : bool :=
  forallb (encodes w) line.

(** [print(line)] on a [sys.stdout] that is open: it encodes the line
    when it is written, with the error handler [strict] that it has by
    default; a character that its encoding lacks raises
    [UnicodeEncodeError] and nothing of the line is written. *)
Definition print (line : str) (w : world) : result unit * world :=
  if encodable w line
  then (Ok tt,
        {| clock := clock w; reads := reads w; stdout := stdout w ++ [line];
           encodes := encodes w |})
  else (Raise UnicodeEncodeError, w).

(** The world once [run] is through, given the world [w2] in which
    its function returned: one more reading of the clock, one more
    line. *)
Definition after_run (w2 : world) (line : str) : world :=
  {| clock := clock w2; reads := Datatypes.S (reads w2);
     stdout := stdout w2 ++ [line]; encodes := encodes w2 |}.

Context {Res : Type} `{Str Res}.

Definition comparison (expected_result : option str) (res : Res) : str :=
  match expected_result with
  | None => []
  | Some expected =>
      if decide (expected = to_str res) then check_mark
      else cross_mark ++ lit " (" ++ expected ++ lit " expected)"
  end.

(** ["Day {} part {}: {} (in {:,} ms){}"] with its first four
    fields filled. *)
Definition summary (day part : Z) (res : Res) (start stop : Time) : str :=
  lit "Day " ++ to_str day ++ lit " part " ++ to_str part ++ lit ": "
    ++ to_str res ++ lit " (in " ++ elapsed start stop ++ lit " ms)".

(** [run(day, part, func, expected_result)]; [func] is any callable: it
    may raise, and may itself print and read the clock. *)
Definition run (day part : Z) (func : world -> result Res * world)
  (expected_result : option str) (w : world) : result unit * world :=
  let '(start, w1) := perf_counter w in
  match func w1 with
  | (Raise e, w2) => (Raise e, w2)
  | (Ok res, w2) =>
      let comparison_result := comparison expected_result res in
      let '(stop, w3) := perf_counter w2 in
      print (summary day part res start stop ++ comparison_result) w3
  end.

End Run.

End Advent.

(** ** Sample data *)

Module Samples.

Import Advent.

(** A store with the one fixture file [test1.txt], and its
    [PuzzleData]. *)
Definition fixture (text : str) : files * PuzzleData :=
  ({[ lit "test1.txt" := text ]},
   {| filename := lit "test1.txt"; is_test_file := true |}).

(** The fixture that [read_test_file] composes from the lines [a], [b]
    and the expected result [42]. *)
Definition written_fixture : str :=
  test_file_text (lit "42") (lit "a" ++ [newline] ++ lit "b").

(** A clock that ticks once a millisecond, and the elapsed milliseconds
    as [{:,}] prints them: in decimal, the digits in groups of three
    counted from the right, with commas between the groups. *)
Definition ms_clock (n : nat) : Z := Z.of_nat n.

(** [commas k rev_digits]: the digits come last first; [k] of them stand
    in the group being filled. *)
Fixpoint commas (k : nat) (rev_digits : list ascii) : list ascii :=
  match rev_digits with
  | [] => []
  | d :: rest =>
      match k with
      | 3%nat => ","%char :: d :: commas 1 rest
      | _ => d :: commas (S k) rest
      end
  end.

Definition group_digits (n : Z) : string :=
  string_of_list_ascii
    (rev (commas 0 (rev (list_ascii_of_string
                           (NilZero.string_of_int (Z.to_int n)))))).

Definition thousands (n : Z) : string :=
  if n <? 0 then String "-"%char (group_digits (- n)) else group_digits n.

Definition ms_elapsed (start stop : Z) : str := lit (thousands (stop - start)).

(** A terminal that encodes every character, and one that encodes
    ASCII only. *)
Definition utf8 (c : N) : bool := true.
Definition ascii_only (c : N) : bool := (c <? 128)%N.

Definition idle : world :=
  {| clock := ms_clock; reads := 0; stdout := []; encodes := utf8 |}.

Definition idle_ascii : world :=
  {| clock := ms_clock; reads := 0; stdout := []; encodes := ascii_only |}.

Definition answers (v : Z) (w : world (Time := Z)) : result Z * world :=
  (Ok v, w).

End Samples.

Module SamplesAux.

Import Advent.

(** A solution that raises. *)
Definition fails (e : exn) (w : world (Time := Z)) : result Z * world :=
  (Raise e, w).

End SamplesAux.

(** ** Measures used to state further properties *)

Module Day1Aux.

Import Day1.

(** The lines that [part1] counts. *)
Definition nonempty_lines (input : list string) : list string :=
  List.filter (fun line => negb (is_empty line)) input.

End Day1Aux.

Module Day12Aux.

Import Day12.

(** How far an action can take the ship: its magnitude, nothing for a
    turn. *)
Definition reach (a : Action) : Z :=
  match dir a with
  | L | R => 0
  | _ => Z.abs (dist a)
  end.

Definition total_reach (actions : list Action) : Z :=
  fold_right (fun a acc => reach a + acc) 0 actions.

(** The distance that [part1] returns for a ship. *)
Definition manhattan (s : Ship) : Z :=
  Z.abs (fst (pos s)) + Z.abs (snd (pos s)).

End Day12Aux.

Module Day15Aux.

Import Day15.

(** [','.join(ws)] *)
Fixpoint join_comma (ws : list string) : string :=
  match ws with
  | [] => EmptyString
  | [w] => w
  | w :: ws' => (w ++ String ","%char (join_comma ws'))%string
  end.

Fixpoint has_comma (s : string) : bool :=
  match s with
  | EmptyString => false
  | String c s' => Ascii.eqb c ","%char || has_comma s'
  end.

(** What the [while] loop of [play] needs in order not to raise, and
    keeps: [last] is a key of [numbers_turns], and every list in it has one
    or two turns. *)
Definition speaking (g : game) : Prop :=
  is_Some (numbers_turns g !! last g)
  /\ forall v ts, numbers_turns g !! v = Some ts ->
       length ts = 1%nat \/ length ts = 2%nat.

End Day15Aux.

Module AdventAux.

Import Advent.

(** The lines of a text as [readlines] returns them, given without their
    newlines: each gets its newline but the last. *)
Fixpoint with_newlines (lines : list str) : list str :=
  match lines with
  | [] => []
  | [l] => [l]
  | l :: ls => (l ++ [newline]) :: with_newlines ls
  end.

(** A line as [input()] returns it: without a newline. *)
Definition console_line (l : str) : Prop := ~ In newline l.

(** A line that ends with its newline. *)
Definition ends_with_newline (l : str) : Prop :=
  exists body, l = body ++ [newline].

End AdventAux.

(** ** Files in text mode *)

Module Disk.

Import Advent.

Definition carriage_return : N := 13%N.

(** A console line that a file in text mode keeps as one line: it holds
    no carriage return either. *)
Definition plain_line (l : str) : Prop :=
  ~ In newline l /\ ~ In carriage_return l.

(** [f.write(s)] on a file opened with ["w"]: in text mode every newline
    is written as [os.linesep]. *)
Definition write_newlines (linesep s : str) : str :=
  flat_map (fun c => if (c =? newline)%N then linesep else [c]) s.

(** What [open(name)] presents of the characters of a file: in text mode
    a carriage return, with the newline that follows it if there is one,
    is read as one newline.  [after_cr] says that the last character was
    a carriage return. *)
Fixpoint universal_newlines (after_cr : bool) (raw : str) : str :=
  match raw with
  | [] => []
  | c :: raw' =>
      if (c =? carriage_return)%N then newline :: universal_newlines true raw'
      else if (c =? newline)%N && after_cr then universal_newlines false raw'
      else c :: universal_newlines false raw'
  end.

(** [save_input] from its [open(input_cache_name, "w")] on; the directory
    is there by then.  [open] empties the file; [write] encodes the text
    with the encoding of the file, whose characters are [encodes] and
    which gives back the characters it encoded, and raises
    [UnicodeEncodeError] before anything is written when a character is
    not among them.  [linesep] is [os.linesep]. *)
Definition save_input (encodes : N -> bool) (linesep : str)
  (input input_cache_name : str) (fs : files) : result unit * files :=
  if forallb encodes input
  then (Ok tt,
        <[input_cache_name :=
            universal_newlines false (write_newlines linesep input)]> fs)
  else (Raise UnicodeEncodeError, <[input_cache_name := []]> fs).

End Disk.

(** ** The rest of the harness: cache names and dispatch *)

Module Loader.

Import Advent.

(** The truth value of [self.options.useTestFile], which is [None] or an
    integer. *)
Definition truthy (useTestFile : option Z) : bool :=
  match useTestFile with
  | Some n => negb (n =? 0)
  | None => false
  end.

(** [f"{x}"] for that attribute. *)
Definition format_option (useTestFile : option Z) : str :=
  match useTestFile with
  | Some n => to_str n
  | None => lit "None"
  end.

(** The names that [get_puzzle_data] computes. *)
Definition input_cache_dir (day : Z) : str := lit ".data/day" ++ to_str day.

Definition file_name (useTestFile : option Z) : str :=
  if negb (truthy useTestFile) then lit "input.txt"
  else lit "test" ++ format_option useTestFile ++ lit ".txt".

Definition input_cache_name (useTestFile : option Z) (day : Z) : str :=
  input_cache_dir day ++ lit "/" ++ file_name useTestFile.

Section Os.

(** The operating system is left open: [OS] is its state, [path_exists]
    is [os.path.exists], [ask_test_file] is [self.read_test_file] on the
    real console, [fetch_input] is [load_cookie] followed by the download,
    [save_input] is [self.save_input]. *)
Context {OS : Type}
  (path_exists : str -> OS -> bool)
  (ask_test_file : str -> OS -> result str * OS)
  (fetch_input : Z -> OS -> result str * OS)
  (save_input : str -> str -> str -> OS -> result unit * OS).

Definition get_puzzle_data (useTestFile : option Z) (day : Z) (os : OS)
  : result PuzzleData * OS :=
  let test_file := useTestFile in
  let name := input_cache_name useTestFile day in
  if path_exists name os
  then (Ok {| filename := name; is_test_file := truthy test_file |}, os)
  else
    let '(content, os1) :=
      if truthy test_file then ask_test_file name os else fetch_input day os in
    match content with
    | Raise e => (Raise e, os1)
    | Ok content =>
        match save_input content (input_cache_dir day) name os1 with
        | (Raise e, os2) => (Raise e, os2)
        | (Ok _, os2) =>
            (Ok {| filename := name; is_test_file := truthy test_file |}, os2)
        end
    end.

End Os.

End Loader.

Module LoaderAux.

Import Loader.

(** The characters of a decimal numeral: the minus sign and the digits. *)
Definition numeral_char (c : N) : Prop := (c = 45 \/ 48 <= c <= 57)%N.

(** The selector as [get_puzzle_data] sees it: 0 counts as none. *)
Definition selector (useTestFile : option Z) : option Z :=
  if truthy useTestFile then useTestFile else None.

End LoaderAux.

Module Runner.

Import Advent.

(** [f"{n}"] for an integer, as text of a module name. *)
Definition decimal (n : Z) : string := NilZero.string_of_int (Z.to_int n).

(** [s] without the leading [prefix], when it starts with it. *)
Fixpoint drop_prefix (prefix s : string) : option string :=
  match prefix, s with
  | EmptyString, _ => Some s
  | String p prefix', String c s' =>
      if Ascii.eqb p c then drop_prefix prefix' s' else None
  | String _ _, EmptyString => None
  end.

(** The longest run of decimal digits at the head of [s]. *)
Fixpoint leading_digits (s : string) : string :=
  match s with
  | String c s' => if is_digit c then String c (leading_digits s') else EmptyString
  | EmptyString => EmptyString
  end.

(** [re.match(r"runners.day(\d+)", module)] and its group 1: the name
    must begin with [runners], any one character but a newline, [day] and
    at least one digit; what follows the digits is not looked at.  Module
    names are texts of the characters 0..255, where [\d] matches the ten
    digits only. *)
Definition match_module (module : string) : option string :=
  match drop_prefix "runners" module with
  | Some (String c rest) =>
      if Ascii.eqb c "010"%char then None
      else match drop_prefix "day" rest with
           | Some tail =>
               match leading_digits tail with
               | EmptyString => None
               | digits => Some digits
               end
           | None => None
           end
  | _ => None
  end.

Section Dispatch.

Context {Time : Type} (elapsed : Time -> Time -> str).
Context {Res : Type} `{Str Res}.

(** What the runner acts on: the files, and the clock and output of
    [run]. *)
Definition state : Type := files * world (Time := Time).

(** A solution: a function of the input lines that may raise, print and
    read the clock. *)
Definition solution : Type :=
  list str -> world (Time := Time) -> result Res * world (Time := Time).

(** A day's module: [part1] and [part2], each of which may be missing
    from its [__dict__]. *)
Record day_module : Type := {
  part1 : option solution;
  part2 : option solution
}.

(** Left open: the loader as a whole, and [importlib.import_module]. *)
Context (get_puzzle_data : Z -> state -> result PuzzleData * state)
        (import_module : string -> state -> result day_module * state).

(** [(part is None or part == n) and "part<n>" in day_module.__dict__],
    then [self.run(day, n, run_part<n>, expected_result)]. *)
Definition run_part (day n : Z) (part : option Z) (f : option solution)
  (input : list str) (expected_result : option str) (st : state)
  : result unit * state :=
  let wanted := match part with None => true | Some p => p =? n end in
  match wanted, f with
  | true, Some f =>
      let '(r, w) := run elapsed day n (f input) expected_result (snd st) in
      (r, (fst st, w))
  | _, _ => (Ok tt, st)
  end.

(** [run_puzzle_module] from the call of [get_puzzle_data] on. *)
Definition run_day (day : Z) (module : string) (part : option Z) (st : state)
  : result unit * state :=
  match get_puzzle_data day st with
  | (Raise e, st1) => (Raise e, st1)
  | (Ok puzzle_data, st1) =>
      match get_data (fst st1) puzzle_data with
      | Raise e => (Raise e, st1)
      | Ok input =>
          match get_expected_result (fst st1) puzzle_data with
          | Raise e => (Raise e, st1)
          | Ok expected_result =>
              match import_module module st1 with
              | (Raise e, st2) => (Raise e, st2)
              | (Ok m, st2) =>
                  match run_part day 1 part (part1 m) input expected_result st2
                  with
                  | (Raise e, st3) => (Raise e, st3)
                  | (Ok _, st3) =>
                      run_part day 2 part (part2 m) input expected_result st3
                  end
              end
          end
      end
  end.

Definition run_puzzle_module (module : string) (part : option Z) (st : state)
  : result unit * state :=
  match match_module module with
  | Some digits =>
      match int digits with
      | Ok day => run_day day module part st
      | Raise e => (Raise e, st)
      end
  | None =>
      (Raise (Exception (lit "Invalid module name: " ++ lit module)), st)
  end.

Definition run_puzzle (day : Z) (part : option Z) (st : state)
  : result unit * state :=
  run_puzzle_module ("runners.day" ++ decimal day) part st.

End Dispatch.

End Runner.

Module DispatchSamples.

Import Advent Samples Loader Runner.

(** A loader that finds the data, an importer that finds the module, and
    a module with a first part only. *)
Definition given_data (d : PuzzleData) (day : Z) (st : @state Z)
  : result PuzzleData * @state Z := (Ok d, st).

Definition given_module (m : @day_module Z Z) (module : string)
  (st : @state Z) : result (@day_module Z Z) * @state Z := (Ok m, st).

Definition first_part_only : @day_module Z Z :=
  {| part1 := Some (fun _ => answers 25); part2 := None |}.

Definition both_parts : @day_module Z Z :=
  {| part1 := Some (fun _ => answers 25);
     part2 := Some (fun _ => answers 26) |}.

Definition good_fixture : str :=
  test_file_text (lit "25") (lit "F10").

Definition bad_fixture : str :=
  lit "Total: 25" ++ [newline] ++ lit "F10".

Definition test1 : PuzzleData :=
  {| filename := lit "test1.txt"; is_test_file := true |}.

Definition good_store : files := {[ lit "test1.txt" := good_fixture ]}.

Definition bad_store : files := {[ lit "test1.txt" := bad_fixture ]}.

(** An operating system where every file is cached already. *)
Definition all_cached (name : str) (os : unit) : bool := true.
Definition no_console (name : str) (os : unit) : result str * unit :=
  (Raise EOFError, os).
Definition no_network (day : Z) (os : unit) : result str * unit :=
  (Raise FileNotFoundError, os).
Definition no_disk (content dir name : str) (os : unit)
  : result unit * unit := (Raise FileNotFoundError, os).

End DispatchSamples.

(** * Properties *)

(** ** Day 1 *)

Section Day1_facts.

Import Day1.

Lemma calculate_module_fuel_bounds (m : Z) :
  3 * (calculate_module_fuel m + 2) <= m < 3 * (calculate_module_fuel m + 2) + 3.
Proof.
  unfold calculate_module_fuel.
  pose proof (Z.div_mod m 3 ltac:(lia)) as Hdm.
  pose proof (Z.mod_pos_bound m 3 ltac:(lia)) as Hm.
  lia.
Qed.

Lemma calculate_module_fuel_lt (m : Z) : -3 < m -> calculate_module_fuel m < m.
Proof. pose proof (calculate_module_fuel_bounds m). lia. Qed.

Lemma calculate_module_fuel_pos (m : Z) : 0 < calculate_module_fuel m -> 9 <= m.
Proof. pose proof (calculate_module_fuel_bounds m). lia. Qed.

Lemma increment_succ (mass : Z) (j : nat) :
  increment mass (S j) = increment (calculate_module_fuel mass) j.
Proof. unfold increment. now rewrite (Nat.iter_succ_r (S j)). Qed.

Lemma Zsum_increments_succ (mass : Z) (k : nat) :
  Zsum (map (increment mass) (seq 0 (S k)))
  = calculate_module_fuel mass
    + Zsum (map (increment (calculate_module_fuel mass)) (seq 0 k)).
Proof.
  cbn [seq map Zsum fold_right]. f_equal.
  rewrite <- seq_shift, map_map. unfold Zsum. f_equal.
  apply map_ext. intros j. apply increment_succ.
Qed.

(** What the loop computes, whenever it has fuel for one pass more than
    the mass: the sum of the increments up to, and without, the first
    one that is not positive. *)
Lemma while_loop_sum (fuel : nat) :
  forall mass sum, (Z.to_nat mass < fuel)%nat ->
  exists k : nat,
    (forall j, (j < k)%nat -> 0 < increment mass j)
    /\ increment mass k <= 0
    /\ while_loop fuel mass sum
       = Some (sum + Zsum (map (increment mass) (seq 0 k))).
Proof.
  induction fuel as [|fuel IH]; intros mass sum Hfuel; [lia|].
  cbn [while_loop]. unfold loop_step.
  destruct (Z.ltb_spec 0 (calculate_module_fuel mass)) as [Hpos|Hneg].
  - pose proof (calculate_module_fuel_pos _ Hpos) as H9.
    pose proof (calculate_module_fuel_lt mass ltac:(lia)) as Hlt.
    destruct (IH (calculate_module_fuel mass)
                (sum + calculate_module_fuel mass) ltac:(lia))
      as (k & Hk & Hstop & Hrun).
    exists (S k). split; [|split].
    + intros [|j] Hj; [exact Hpos|].
      rewrite increment_succ. apply Hk. lia.
    + now rewrite increment_succ.
    + rewrite Hrun, Zsum_increments_succ. f_equal. lia.
  - exists O. split; [|split].
    + intros j Hj. lia.
    + exact Hneg.
    + cbn. f_equal. lia.
Qed.

Lemma while_loop_more_fuel (fuel fuel' : nat) (mass sum r : Z) :
  while_loop fuel mass sum = Some r -> (fuel <= fuel')%nat ->
  while_loop fuel' mass sum = Some r.
Proof.
  revert fuel' mass sum.
  induction fuel as [|fuel IH]; intros fuel' mass sum Hrun Hle;
    [discriminate|].
  destruct fuel' as [|fuel']; [lia|].
  cbn [while_loop] in *.
  destruct (loop_step mass sum) as [[mass' sum']|sum']; [|exact Hrun].
  apply IH; [exact Hrun|lia].
Qed.

Lemma part2_from_more_fuel (fuel fuel' : nat) (input : list string) :
  forall sum r,
  part2_from fuel sum input = Some r -> (fuel <= fuel')%nat ->
  part2_from fuel' sum input = Some r.
Proof.
  induction input as [|line rest IH]; intros sum r Hrun Hle;
    cbn [part2_from] in *; [exact Hrun|].
  destruct (is_empty line); [exact Hrun|].
  destruct (int line) as [mass|e]; [|exact Hrun].
  destruct (while_loop fuel mass sum) as [sum'|] eqn:Hloop; [|discriminate].
  rewrite (while_loop_more_fuel _ _ _ _ _ Hloop Hle).
  now apply IH.
Qed.

(** C2: for every non-negative integer [m], [calculate_module_fuel m] is
    [floor(m/3) - 2], where [floor(m/3)] is the integer [q] with
    [3q <= m < 3q + 3]; in particular it maps 12 to 2, 14 to 2, 1969 to
    654 and 100756 to 33583. *)
Theorem calculate_module_fuel_floor (m : Z) (Hm : 0 <= m) :
  (exists q, 3 * q <= m < 3 * q + 3 /\ calculate_module_fuel m = q - 2)
  /\ (forall q, 3 * q <= m < 3 * q + 3 -> calculate_module_fuel m = q - 2)
  /\ calculate_module_fuel 12 = 2
  /\ calculate_module_fuel 14 = 2
  /\ calculate_module_fuel 1969 = 654
  /\ calculate_module_fuel 100756 = 33583.
Proof.
  pose proof (calculate_module_fuel_bounds m) as Hb.
  split; [|split].
  - exists (calculate_module_fuel m + 2). split; [exact Hb|lia].
  - intros q Hq. lia.
  - repeat split; reflexivity.
Qed.

Lemma calculate_module_fuel_floor_witness :
  0 <= 1969
  /\ (forall q, 3 * q <= 1969 < 3 * q + 3 -> calculate_module_fuel 1969 = q - 2).
Proof.
  split; [lia|].
  apply (calculate_module_fuel_floor 1969). lia.
Defined.

(** C3: the loop of part 2 applies [calculate_module_fuel] again to each
    increment and adds every positive one, stopping at the first
    increment that is not positive, which is not added; for the single
    line 1969 part 2 returns 966, for the single line 100756 it returns
    50346. *)
Theorem part2_sums_positive_increments (fuel : nat) (mass sum : Z)
  (Hfuel : (Z.to_nat mass < fuel)%nat) :
  (exists k : nat,
     (forall j, (j < k)%nat -> 0 < increment mass j)
     /\ increment mass k <= 0
     /\ while_loop fuel mass sum
        = Some (sum + Zsum (map (increment mass) (seq 0 k)))
     /\ forall line, int line = Ok mass ->
          part2 fuel [line]
          = Some (Ok (Zsum (map (increment mass) (seq 0 k)))))
  /\ (forall n, (10 <= n)%nat ->
        part2 n ["1969"%string] = Some (Ok 966)
        /\ part2 n ["100756"%string] = Some (Ok 50346)).
Proof.
  split.
  - destruct (while_loop_sum fuel mass sum Hfuel) as (k & Hpos & Hstop & Hrun).
    exists k. split; [exact Hpos|split; [exact Hstop|split; [exact Hrun|]]].
    intros line Hline. unfold part2. cbn [part2_from].
    destruct line as [|c line]; [discriminate Hline|]. cbn [is_empty].
    rewrite Hline.
    destruct (while_loop_sum fuel mass 0 Hfuel) as (k' & Hpos' & Hstop' & ->).
    assert (Hk : k' = k).
    { destruct (Nat.lt_trichotomy k' k) as [Hlt|[Heq|Hgt]]; [|exact Heq|].
      - specialize (Hpos k' Hlt). lia.
      - specialize (Hpos' k Hgt). lia. }
    subst k'. do 2 f_equal.
  - intros n Hn. split.
    + apply (part2_from_more_fuel 10); [vm_compute; reflexivity|exact Hn].
    + apply (part2_from_more_fuel 10); [vm_compute; reflexivity|exact Hn].
Qed.

Lemma part2_sums_positive_increments_witness :
  (exists k : nat,
     (forall j, (j < k)%nat -> 0 < increment 14 j)
     /\ increment 14 k <= 0
     /\ while_loop 15 14 0 = Some (0 + Zsum (map (increment 14) (seq 0 k))))
  /\ part2 10 ["1969"%string] = Some (Ok 966).
Proof.
  destruct (part2_sums_positive_increments 15 14 0 ltac:(cbn; lia))
    as [(k & Hpos & Hstop & Hrun & _) Hex].
  split; [exists k; auto|].
  apply (Hex 10%nat). lia.
Defined.

(** C9: for every integer starting mass the inner loop of part 2
    terminates: [mass // 3 - 2 < mass] for every [mass > 0], so the
    positive increments strictly decrease, and one pass more than the
    mass always suffices. *)
Theorem part2_loop_terminates (mass sum : Z) :
  (0 < mass -> calculate_module_fuel mass < mass)
  /\ (forall j, 0 < increment mass j ->
        increment mass (S j) < increment mass j)
  /\ exists (n : nat) (r : Z),
       forall fuel, (n <= fuel)%nat -> while_loop fuel mass sum = Some r.
Proof.
  split; [|split].
  - intros Hpos. apply calculate_module_fuel_lt. lia.
  - intros j Hj. unfold increment at 1. cbn [Nat.iter].
    apply calculate_module_fuel_lt. fold (increment mass j). lia.
  - destruct (while_loop_sum (S (Z.to_nat mass)) mass sum ltac:(lia))
      as (k & _ & _ & Hrun).
    do 2 eexists. intros fuel Hle.
    exact (while_loop_more_fuel _ _ _ _ _ Hrun Hle).
Qed.

Lemma part2_loop_terminates_witness :
  (0 < 1969 -> calculate_module_fuel 1969 < 1969)
  /\ exists (n : nat) (r : Z),
       forall fuel, (n <= fuel)%nat -> while_loop fuel 1969 0 = Some r.
Proof.
  destruct (part2_loop_terminates 1969 0) as (Hlt & _ & Hterm).
  split; [exact Hlt|exact Hterm].
Defined.

End Day1_facts.

(** ** Day 12 *)

Section Day12_facts.

Import Day12.

Ltac cardinal_cases H :=
  destruct H as [H|[H|[H|H]]]; subst.

Lemma clockwise_cardinal (d : Direction) : cardinal d -> cardinal (clockwise d).
Proof. intros H. cardinal_cases H; cbn; unfold cardinal; auto. Qed.

Lemma counter_clockwise_cardinal (d : Direction) :
  cardinal d -> cardinal (counter_clockwise d).
Proof. intros H. cardinal_cases H; cbn; unfold cardinal; auto. Qed.

Lemma cardinal_dirs_R_clockwise (d : Direction) :
  cardinal d -> dict_get cardinal_dirs_R d = Ok (clockwise d).
Proof. intros H. cardinal_cases H; reflexivity. Qed.

Lemma cardinal_dirs_L_counter_clockwise (d : Direction) :
  cardinal d -> dict_get cardinal_dirs_L d = Ok (counter_clockwise d).
Proof. intros H. cardinal_cases H; reflexivity. Qed.

Lemma iter_cardinal (f : Direction -> Direction) (n : nat) (d : Direction) :
  (forall d', cardinal d' -> cardinal (f d')) ->
  cardinal d -> cardinal (Nat.iter n f d).
Proof. intros Hf Hd. induction n as [|n IH]; cbn; auto. Qed.

Lemma turn_R (n : nat) :
  forall d, cardinal d ->
  turn cardinal_dirs_R n d = Ok (Nat.iter n clockwise d).
Proof.
  induction n as [|n IH]; intros d Hd; [reflexivity|].
  rewrite Nat.iter_succ_r. cbn [turn].
  rewrite (cardinal_dirs_R_clockwise d Hd).
  exact (IH _ (clockwise_cardinal _ Hd)).
Qed.

Lemma turn_L (n : nat) :
  forall d, cardinal d ->
  turn cardinal_dirs_L n d = Ok (Nat.iter n counter_clockwise d).
Proof.
  induction n as [|n IH]; intros d Hd; [reflexivity|].
  rewrite Nat.iter_succ_r. cbn [turn].
  rewrite (cardinal_dirs_L_counter_clockwise d Hd).
  exact (IH _ (counter_clockwise_cardinal _ Hd)).
Qed.

(** A move towards a cardinal direction: the heading stays, the position
    shifts along one axis by the distance. *)
Lemma move_cardinal_action (depth : nat) (s : Ship) (a : Action) :
  cardinal (dir a) ->
  exists s', move depth s a = Ok s'
    /\ direction s' = direction s
    /\ (fst (pos s') = fst (pos s) \/ snd (pos s') = snd (pos s))
    /\ Z.abs (fst (pos s') - fst (pos s)) + Z.abs (snd (pos s') - snd (pos s))
       = Z.abs (dist a).
Proof.
  intros Ha. destruct s as [h [x y]], a as [d n]. cbn in Ha.
  cardinal_cases Ha; destruct depth; cbn; eexists; (split; [reflexivity|]);
    cbn; (split; [reflexivity|]); (split; [auto|lia]).
Qed.

Lemma move_R (depth : nat) (s : Ship) (n : Z) :
  cardinal (direction s) ->
  move depth s {| dir := R; dist := n |}
  = Ok {| direction := Nat.iter (Z.to_nat (n / 90)) clockwise (direction s);
          pos := pos s |}.
Proof.
  intros Hs. destruct s as [h [x y]], depth; cbn [move pos dir dist direction];
    unfold range_len; rewrite (turn_R _ _ Hs); reflexivity.
Qed.

Lemma move_L (depth : nat) (s : Ship) (n : Z) :
  cardinal (direction s) ->
  move depth s {| dir := L; dist := n |}
  = Ok {| direction :=
            Nat.iter (Z.to_nat (n / 90)) counter_clockwise (direction s);
          pos := pos s |}.
Proof.
  intros Hs. destruct s as [h [x y]], depth; cbn [move pos dir dist direction];
    unfold range_len; rewrite (turn_L _ _ Hs); reflexivity.
Qed.

(** The heading of a ship stays cardinal: it is at the start, and every
    move keeps it so. *)
Lemma move_keeps_cardinal (depth : nat) (s s' : Ship) (a : Action) :
  cardinal (direction s) -> move depth s a = Ok s' -> cardinal (direction s').
Proof.
  intros Hs. destruct a as [d n].
  destruct d.
  1-4: intros Hm;
    match type of Hm with
    | move _ _ ?a = _ =>
        destruct (move_cardinal_action depth s a) as (s'' & Hm' & Hd & _);
        [unfold cardinal; cbn; auto | ]
    end;
    rewrite Hm in Hm'; injection Hm' as <-; now rewrite Hd.
  - rewrite (move_L _ _ _ Hs). intros [= <-]. cbn [direction].
    apply iter_cardinal; auto using counter_clockwise_cardinal.
  - rewrite (move_R _ _ _ Hs). intros [= <-]. cbn [direction].
    apply iter_cardinal; auto using clockwise_cardinal.
  - destruct depth as [|depth]; [destruct s as [h [x y]]; discriminate|].
    intros Hm.
    assert (Hm2 : move depth s {| dir := direction s; dist := n |} = Ok s').
    { destruct s as [h [x y]]. exact Hm. }
    destruct (move_cardinal_action depth s
                {| dir := direction s; dist := n |} Hs)
      as (s'' & Hm' & Hd & _).
    rewrite Hm2 in Hm'. injection Hm' as <-. now rewrite Hd.
Qed.

Lemma sail_keeps_cardinal (depth : nat) (input : list string) :
  forall s s', cardinal (direction s) ->
  sail depth s input = Ok s' -> cardinal (direction s').
Proof.
  induction input as [|line rest IH]; intros s s' Hs; cbn [sail].
  - now intros [= <-].
  - destruct (parse_action line) as [a|e]; [|discriminate]. cbn.
    destruct (move depth s a) as [s1|e] eqn:Hm; [|discriminate]. cbn.
    apply IH. exact (move_keeps_cardinal _ _ _ _ Hs Hm).
Qed.

(** C4: on the lines F10, N3, F7, R90, F11, from the origin and heading
    East, [part1] returns 25, the Manhattan distance between the origin
    and the position the ship ends on. *)
Theorem part1_example (depth : nat) :
  let input := ["F10"; "N3"; "F7"; "R90"; "F11"]%string in
  exists s, sail (Datatypes.S depth) new_ship input = Ok s
    /\ Z.abs (fst (pos s)) + Z.abs (snd (pos s)) = 25
    /\ part1 (Datatypes.S depth) input = Ok 25.
Proof.
  exists {| direction := S; pos := (-17, 8) |}.
  destruct depth; repeat split; reflexivity.
Qed.

(** C8: an L or R action only turns the heading, by one quarter turn for
    each full 90 units of its magnitude (R clockwise N, E, S, W, N; L the
    other way round), and leaves the position; an N, S, E, W or F action
    only shifts the position by its magnitude and leaves the heading,
    F shifting along the heading. *)
Theorem move_frame (depth : nat) (s : Ship) (a : Action)
  (Hs : cardinal (direction s)) :
  match dir a with
  | R =>
      move depth s a
      = Ok {| direction :=
                Nat.iter (Z.to_nat (dist a / 90)) clockwise (direction s);
              pos := pos s |}
  | L =>
      move depth s a
      = Ok {| direction :=
                Nat.iter (Z.to_nat (dist a / 90)) counter_clockwise
                  (direction s);
              pos := pos s |}
  | N =>
      move depth s a
      = Ok {| direction := direction s;
              pos := (fst (pos s), snd (pos s) - dist a) |}
  | S =>
      move depth s a
      = Ok {| direction := direction s;
              pos := (fst (pos s), snd (pos s) + dist a) |}
  | E =>
      move depth s a
      = Ok {| direction := direction s;
              pos := (fst (pos s) - dist a, snd (pos s)) |}
  | W =>
      move depth s a
      = Ok {| direction := direction s;
              pos := (fst (pos s) + dist a, snd (pos s)) |}
  | F =>
      move (Datatypes.S depth) s a
      = move depth s {| dir := direction s; dist := dist a |}
      /\ exists s', move (Datatypes.S depth) s a = Ok s'
           /\ direction s' = direction s
           /\ (fst (pos s') = fst (pos s) \/ snd (pos s') = snd (pos s))
           /\ Z.abs (fst (pos s') - fst (pos s))
              + Z.abs (snd (pos s') - snd (pos s)) = Z.abs (dist a)
  end.
Proof.
  destruct a as [d n]. destruct d; cbn [dir dist].
  1-4: destruct s as [h [x y]], depth; reflexivity.
  - exact (move_L depth s n Hs).
  - exact (move_R depth s n Hs).
  - assert (Hstep : move (Datatypes.S depth) s {| dir := F; dist := n |}
                    = move depth s {| dir := direction s; dist := n |}).
    { destruct s as [h [x y]]. reflexivity. }
    split; [exact Hstep|]. rewrite Hstep.
    exact (move_cardinal_action depth s
             {| dir := direction s; dist := n |} Hs).
Qed.

Lemma move_frame_witness :
  cardinal (direction new_ship)
  /\ move 0 new_ship {| dir := R; dist := 180 |}
     = Ok {| direction := W; pos := (0, 0) |}.
Proof.
  split; [right; right; left; reflexivity|].
  exact (move_frame 0 new_ship {| dir := R; dist := 180 |}
           (or_intror (or_intror (or_introl eq_refl)))).
Defined.

(** C10: the two tables are inverse to each other on the four cardinal
    directions, which each of them permutes; so R 90 followed by L 90
    gives the heading back, and so do four R 90 in a row. *)
Theorem cardinal_dirs_inverse (d : Direction) (Hd : cardinal d) :
  (exists d', dict_get cardinal_dirs_R d = Ok d' /\ cardinal d'
              /\ dict_get cardinal_dirs_L d' = Ok d)
  /\ (exists d', dict_get cardinal_dirs_L d = Ok d' /\ cardinal d'
                 /\ dict_get cardinal_dirs_R d' = Ok d)
  /\ map snd cardinal_dirs_R ≡ₚ map fst cardinal_dirs_R
  /\ map snd cardinal_dirs_L ≡ₚ map fst cardinal_dirs_L
  /\ map fst cardinal_dirs_R = [N; E; S; W]
  /\ map fst cardinal_dirs_L = [N; E; S; W]
  /\ forall depth p,
       let s := {| direction := d; pos := p |} in
       let R90 := {| dir := R; dist := 90 |} in
       let L90 := {| dir := L; dist := 90 |} in
       (s1 ← move depth s R90; move depth s1 L90) = Ok s
       /\ (s1 ← move depth s R90; s2 ← move depth s1 R90;
           s3 ← move depth s2 R90; move depth s3 R90) = Ok s.
Proof.
  split; [|split; [|split; [|split; [|split; [|split]]]]].
  - cardinal_cases Hd; eexists; (split; [reflexivity|]);
      unfold cardinal; auto.
  - cardinal_cases Hd; eexists; (split; [reflexivity|]);
      unfold cardinal; auto.
  - cbn. symmetry. apply (Permutation_cons_append [E; S; W] N).
  - cbn. apply (Permutation_cons_append [N; E; S] W).
  - reflexivity.
  - reflexivity.
  - intros depth [x y]. cardinal_cases Hd; destruct depth; split; reflexivity.
Qed.

Lemma cardinal_dirs_inverse_witness :
  cardinal N
  /\ (s1 ← move 0 new_ship {| dir := R; dist := 90 |};
      move 0 s1 {| dir := L; dist := 90 |}) = Ok new_ship.
Proof.
  assert (HE : cardinal E) by (right; right; left; reflexivity).
  split; [left; reflexivity|].
  exact (proj1 (proj2 (proj2 (proj2 (proj2 (proj2
           (proj2 (cardinal_dirs_inverse E HE)))))) 0%nat (0, 0))).
Defined.

End Day12_facts.

(** ** The fixture loader *)

Section Loader_facts.

Import Advent Samples.

Lemma startswith_app (p s : str) : startswith (p ++ s) p = true.
Proof.
  induction p as [|c p IH]; [reflexivity|].
  cbn. now rewrite N.eqb_refl.
Qed.

Lemma startswith_inv (p : str) :
  forall s, startswith s p = true -> exists t, s = p ++ t.
Proof.
  induction p as [|c p IH]; intros s Hs; [now exists s|].
  destruct s as [|c' s]; [discriminate|].
  cbn in Hs. apply andb_prop in Hs as [Hc Hs].
  apply N.eqb_eq in Hc as ->.
  destruct (IH s Hs) as [t ->]. now exists t.
Qed.

Lemma startswith_longer (p s t : str) :
  startswith s p = true -> startswith (s ++ t) p = true.
Proof.
  intros Hs. destruct (startswith_inv p s Hs) as [u ->].
  rewrite <- app_assoc. apply startswith_app.
Qed.

Lemma isspace_newline : isspace newline = true.
Proof. reflexivity. Qed.

Lemma lstrip_suffix (s : str) : exists w, s = w ++ lstrip s.
Proof.
  induction s as [|c s [w IH]]; [now exists []|].
  cbn. destruct (isspace c).
  - exists (c :: w). cbn. now f_equal.
  - now exists [].
Qed.

Lemma lstrip_stops (c : N) (z : str) :
  isspace c = false ->
  forall x, exists y, lstrip (x ++ c :: z) = y ++ c :: z.
Proof.
  intros Hc. induction x as [|a x [y IH]].
  - exists []. cbn. now rewrite Hc.
  - cbn. destruct (isspace a).
    + now exists y.
    + now exists (a :: x).
Qed.

Lemma rstrip_prefix (s : str) : exists w, s = rstrip s ++ w.
Proof.
  unfold rstrip. destruct (lstrip_suffix (rev s)) as [w Hw].
  exists (rev w). rewrite <- rev_app_distr, <- Hw. now rewrite rev_involutive.
Qed.

Lemma rstrip_keeps (a : str) (c : N) (b : str) :
  isspace c = false -> exists b', rstrip (a ++ c :: b) = a ++ c :: b'.
Proof.
  intros Hc. unfold rstrip.
  rewrite rev_app_distr. cbn [rev]. rewrite <- app_assoc. cbn [app].
  destruct (lstrip_stops c (rev a) Hc (rev b)) as [y ->].
  exists (rev y).
  rewrite rev_app_distr. cbn [rev]. rewrite rev_involutive.
  now rewrite <- !app_assoc.
Qed.

Lemma readline_app (a t : str) :
  ~ In newline a -> readline (a ++ t) = a ++ readline t.
Proof.
  induction a as [|c a IH]; intros Ha; [reflexivity|].
  cbn. destruct (N.eqb_spec c newline) as [->|Hc].
  - exfalso. apply Ha. now left.
  - f_equal. apply IH. intros Hin. apply Ha. now right.
Qed.

Lemma readlines_app (a t : str) :
  ~ In newline a ->
  readlines (a ++ newline :: t) = (a ++ [newline]) :: readlines t.
Proof.
  induction a as [|c a IH]; intros Ha; [reflexivity|].
  cbn [app readlines]. destruct (N.eqb_spec c newline) as [->|Hc].
  - exfalso. apply Ha. now left.
  - rewrite IH; [reflexivity|]. intros Hin. apply Ha. now right.
Qed.

(** The lines of a text, one after the other, are the text: no character
    is dropped, the newlines stay. *)
Lemma concat_readlines (t : str) : concat (readlines t) = t.
Proof.
  induction t as [|c t IH]; [reflexivity|].
  cbn [readlines]. destruct (c =? newline)%N.
  - cbn. now rewrite IH.
  - destruct (readlines t) as [|l ls]; cbn in *; now rewrite <- IH.
Qed.

(** Past an occurrence of [old] at the head, [replace] goes on behind
    it. *)
Lemma replace_from_skip (old new a t : str) :
  replace_from old new (length a) (a ++ t) = replace_from old new O t.
Proof.
  induction a as [|c a IH]; [reflexivity|].
  cbn. exact IH.
Qed.

Lemma replace_prefix (t : str) :
  replace (result_prefix ++ t) result_prefix []
  = replace t result_prefix [].
Proof.
  unfold replace.
  change (result_prefix ++ t)
    with (82%N :: (lit "esult: " ++ t)).
  cbn [replace_from].
  change (82%N :: (lit "esult: " ++ t)) with (result_prefix ++ t).
  rewrite startswith_app. cbn [app].
  exact (replace_from_skip result_prefix [] (lit "esult: ") t).
Qed.

Lemma result_prefix_no_newline : ~ In newline result_prefix.
Proof. cbn. unfold newline. intuition discriminate. Qed.

(** The loader writes what it reads: from the console lines [a], [b], an
    empty line and [42] it composes the fixture with the two leading lines
    [Result: 42] and [Input:]. *)
Lemma read_test_file_writes_fixture :
  read_test_file [lit "a"; lit "b"; []; lit "42"] = Ok (written_fixture, []).
Proof. reflexivity. Qed.

(** C1, as the code has it: of a fixture, [get_data] leaves out the first
    two lines (the [Result: ] line and the one after it, where the
    loader writes [Input:]) and returns every line after them with its
    newline; [get_expected_result] returns [42] for the first line
    [Result: 42]. *)
Theorem get_data_drops_two_lines (fs : files) (d : PuzzleData)
  (first second rest : str)
  (Htest : is_test_file d = true)
  (Hfile : fs !! filename d
           = Some (first ++ [newline] ++ second ++ [newline] ++ rest))
  (Hfirst : ~ In newline first)
  (Hsecond : ~ In newline second) :
  get_data fs d = Ok (readlines rest)
  /\ concat (readlines rest) = rest
  /\ (first = lit "Result: 42" ->
      get_expected_result fs d = Ok (Some (lit "42"))).
Proof.
  split; [|split].
  - unfold get_data, open. rewrite Hfile, Htest.
    cbn [app negb mbind result_bind].
    rewrite (readlines_app first), (readlines_app second) by assumption.
    reflexivity.
  - apply concat_readlines.
  - intros ->. unfold get_expected_result, open. rewrite Hfile, Htest.
    cbn [app negb mbind result_bind].
    rewrite readline_app by assumption.
    reflexivity.
Qed.

Lemma get_data_drops_two_lines_witness :
  let d := {| filename := lit "test1.txt"; is_test_file := true |} in
  let fs : files := {[ lit "test1.txt" := written_fixture ]} in
  get_data fs d = Ok [lit "a" ++ [newline]; lit "b"]
  /\ get_expected_result fs d = Ok (Some (lit "42")).
Proof.
  intros d fs.
  destruct (get_data_drops_two_lines fs d
              (lit "Result: 42") (lit "Input:")
              (lit "a" ++ [newline] ++ lit "b")
              eq_refl eq_refl
              ltac:(cbn; unfold newline; intuition discriminate)
              ltac:(cbn; unfold newline; intuition discriminate))
    as (Hdata & _ & Hres).
  split; [exact Hdata|exact (Hres eq_refl)].
Defined.

(** C1 as stated fails: of the lines [Result: 42], [a], [b] only the last
    one is returned, with its newline. *)
Lemma get_data_loses_line :
  let d := {| filename := lit "test1.txt"; is_test_file := true |} in
  let text := lit "Result: 42" ++ [newline] ++ lit "a" ++ [newline]
                ++ lit "b" ++ [newline] in
  let fs : files := {[ lit "test1.txt" := text ]} in
  get_data fs d = Ok [lit "b" ++ [newline]]
  /\ get_data fs d <> Ok [lit "a"; lit "b"]
  /\ get_expected_result fs d = Ok (Some (lit "42")).
Proof.
  intros d text fs. split; [reflexivity|split; [|reflexivity]].
  intros Heq. vm_compute in Heq. discriminate Heq.
Qed.

(** C6 as stated fails both ways: the first line [  Result: 42] does not
    start with the prefix, and the result [42] is returned; the first line
    [Result: ] followed by the newline starts with the prefix, and the
    exception is raised. *)
Lemma header_check_is_on_stripped_line :
  let '(fs1, d1) := fixture (lit "  Result: 42" ++ [newline]) in
  let '(fs2, d2) := fixture (lit "Result: " ++ [newline]) in
  startswith (readline (lit "  Result: 42" ++ [newline])) result_prefix
  = false
  /\ get_expected_result fs1 d1 = Ok (Some (lit "42"))
  /\ startswith (readline (lit "Result: " ++ [newline])) result_prefix
     = true
  /\ raises (get_expected_result fs2 d2).
Proof.
  cbv zeta. unfold fixture.
  split; [reflexivity|split; [reflexivity|split; [reflexivity|]]].
  eexists. reflexivity.
Qed.

(** C6, as the code has it: the prefix is looked for in the first line
    with the whitespace around it stripped.  The call raises when the
    stripped line does not start with [Result: ] and else returns the
    stripped line without its occurrences of [Result: ].  So it returns
    for a first line that starts with [Result: ] and a character that
    is not whitespace, and it raises for a first line that does not start
    with [Result: ] and starts with no whitespace. *)
Theorem get_expected_result_header (fs : files) (d : PuzzleData) (text : str)
  (Htest : is_test_file d = true)
  (Hfile : fs !! filename d = Some text) :
  let first_line := strip (readline text) in
  (startswith first_line result_prefix = true ->
   get_expected_result fs d
   = Ok (Some (replace first_line result_prefix [])))
  /\ (startswith first_line result_prefix = false ->
      raises (get_expected_result fs d))
  /\ (forall c tail, isspace c = false ->
      text = result_prefix ++ c :: tail ->
      exists value,
        first_line = result_prefix ++ c :: value
        /\ get_expected_result fs d
           = Ok (Some (replace (c :: value) result_prefix [])))
  /\ (startswith (readline text) result_prefix = false ->
      lstrip text = text ->
      raises (get_expected_result fs d)).
Proof.
  intros first_line.
  assert (Hyes : startswith first_line result_prefix = true ->
                 get_expected_result fs d
                 = Ok (Some (replace first_line result_prefix []))).
  { intros Hp. unfold get_expected_result, open.
    rewrite Hfile, Htest. cbn [negb mbind result_bind].
    fold first_line. now rewrite Hp. }
  assert (Hno : startswith first_line result_prefix = false ->
                raises (get_expected_result fs d)).
  { intros Hp. unfold get_expected_result, open.
    rewrite Hfile, Htest. cbn [negb mbind result_bind].
    fold first_line. rewrite Hp. eexists. reflexivity. }
  split; [exact Hyes|split; [exact Hno|split]].
  - intros c tail Hc ->.
    assert (Hnl : c <> newline) by (intros ->; discriminate Hc).
    assert (Hline : exists rest,
               readline (result_prefix ++ c :: tail)
               = result_prefix ++ c :: rest).
    { rewrite readline_app by apply result_prefix_no_newline.
      cbn [readline]. destruct (N.eqb_spec c newline); [contradiction|].
      eauto. }
    destruct Hline as [rest Hline].
    assert (Hstrip : exists value,
               first_line = result_prefix ++ c :: value).
    { unfold first_line, strip. rewrite Hline.
      change (lstrip (result_prefix ++ c :: rest))
        with (result_prefix ++ c :: rest).
      apply rstrip_keeps. exact Hc. }
    destruct Hstrip as [value Hvalue].
    exists value. split; [exact Hvalue|].
    rewrite Hyes by (rewrite Hvalue; apply startswith_app).
    now rewrite Hvalue, replace_prefix.
  - intros Hraw Hlead. apply Hno.
    destruct (startswith first_line result_prefix) eqn:Hp; [|reflexivity].
    exfalso.
    assert (Hl : lstrip (readline text) = readline text).
    { destruct text as [|c t]; [reflexivity|].
      cbn [lstrip] in Hlead. cbn [readline].
      destruct (isspace c) eqn:Hc.
      - exfalso. destruct (lstrip_suffix t) as [w Hw].
        rewrite Hlead in Hw.
        apply (f_equal (@length N)) in Hw.
        rewrite length_app in Hw. cbn [length] in Hw. lia.
      - destruct (c =? newline)%N; cbn [lstrip]; now rewrite Hc. }
    unfold first_line, strip in Hp. rewrite Hl in Hp.
    destruct (rstrip_prefix (readline text)) as [w Hw].
    rewrite Hw in Hraw.
    now rewrite (startswith_longer _ _ w Hp) in Hraw.
Qed.

Lemma get_expected_result_header_witness :
  let '(fs, d) := fixture (lit "Result: 436" ++ [newline] ++ lit "0,3,6") in
  get_expected_result fs d = Ok (Some (lit "436")).
Proof.
  cbv zeta. unfold fixture.
  refine (proj1 (get_expected_result_header
                   {[ lit "test1.txt" :=
                        lit "Result: 436" ++ [newline] ++ lit "0,3,6" ]}
                   {| filename := lit "test1.txt"; is_test_file := true |}
                   (lit "Result: 436" ++ [newline] ++ lit "0,3,6")
                   eq_refl eq_refl) eq_refl).
Defined.

End Loader_facts.

(** ** The runner *)

Section Runner_facts.

Import Advent.

Context {Time : Type} (elapsed : Time -> Time -> str).
Context {Res : Type} `{Str Res}.

(** Whatever the expected result, a run whose function returns reads the
    clock once more and prints one line, the summary followed by
    [comparison]; it ends normally when the output can encode that line,
    and with the [UnicodeEncodeError] of [print] when it cannot. *)
Lemma run_returns (day part : Z) (func : world -> result Res * world)
  (expected_result : option str) (w w2 : world) (res : Res) :
  func (snd (perf_counter w)) = (Ok res, w2) ->
  let line :=
    summary elapsed day part res (clock w (reads w)) (clock w2 (reads w2))
      ++ comparison expected_result res in
  run elapsed day part func expected_result w
  = if encodable w2 line
    then (Ok tt, after_run w2 line)
    else (Raise UnicodeEncodeError, snd (perf_counter w2)).
Proof.
  intros Hfunc line. unfold run, perf_counter in *. cbn [snd] in Hfunc.
  rewrite Hfunc. unfold print. fold line.
  change (encodable _ line) with (encodable w2 line).
  now destruct (encodable w2 line).
Qed.

(** C7, as the code has it: when the expected result is present and
    differs from [str] of the result, [run] prints the summary line with
    the mismatch note at its end.  On an output that can encode the line,
    cross mark included, it ends normally, raises nothing and leaves
    everything else as a run with the matching expected result does; on an
    output that cannot, [print] raises [UnicodeEncodeError] and nothing is
    printed.  Without an expected result the line carries no
    annotation. *)
Theorem run_mismatch_is_reported (day part : Z)
  (func : world -> result Res * world) (w w2 : world (Time := Time))
  (res : Res) (expected : str)
  (Hfunc : func (snd (perf_counter w)) = (Ok res, w2))
  (Hdiff : expected <> to_str res) :
  let line := summary elapsed day part res
                (clock w (reads w)) (clock w2 (reads w2)) in
  let note := cross_mark ++ lit " (" ++ expected ++ lit " expected)" in
  (encodable w2 (line ++ note) = true ->
   run elapsed day part func (Some expected) w
   = (Ok tt, after_run w2 (line ++ note)))
  /\ (encodable w2 (line ++ note) = false ->
      run elapsed day part func (Some expected) w
      = (Raise UnicodeEncodeError, snd (perf_counter w2)))
  /\ (encodable w2 (line ++ check_mark) = true ->
      run elapsed day part func (Some (to_str res)) w
      = (Ok tt, after_run w2 (line ++ check_mark)))
  /\ (encodable w2 line = true ->
      run elapsed day part func None w = (Ok tt, after_run w2 line)).
Proof.
  intros line note.
  assert (Hmis : comparison (Some expected) res = note).
  { cbn [comparison].
    destruct (decide (expected = to_str res)); [contradiction|reflexivity]. }
  assert (Hmatch : comparison (Some (to_str res)) res = check_mark).
  { cbn [comparison].
    destruct (decide (to_str res = to_str res)); [reflexivity|contradiction]. }
  repeat split; intros Henc.
  - rewrite (run_returns _ _ _ _ _ _ _ Hfunc), Hmis. fold line.
    now rewrite Henc.
  - rewrite (run_returns _ _ _ _ _ _ _ Hfunc), Hmis. fold line.
    now rewrite Henc.
  - rewrite (run_returns _ _ _ _ _ _ _ Hfunc), Hmatch. fold line.
    now rewrite Henc.
  - rewrite (run_returns _ _ _ _ _ _ _ Hfunc). cbn [comparison].
    rewrite app_nil_r. fold line. now rewrite Henc.
Qed.

End Runner_facts.

Section Runner_example.

Import Advent Samples.

Lemma run_mismatch_is_reported_witness :
  run ms_elapsed 15 1 (answers 436) (Some (lit "437")) idle
  = (Ok tt,
     {| clock := ms_clock; reads := 2;
        stdout := [lit "Day 15 part 1: 436 (in 1 ms)" ++ cross_mark
                     ++ lit " (437 expected)"];
        encodes := utf8 |}).
Proof.
  refine (proj1 (run_mismatch_is_reported ms_elapsed 15 1 (answers 436)
                   idle _ 436 (lit "437") eq_refl _) eq_refl).
  intros Heq. discriminate Heq.
Defined.

(** The elapsed time of the samples, from a thousand milliseconds on. *)
Lemma ms_elapsed_groups_thousands :
  ms_elapsed 0 999 = lit "999"
  /\ ms_elapsed 0 1000 = lit "1,000"
  /\ ms_elapsed 5 1234572 = lit "1,234,567".
Proof. repeat split; reflexivity. Qed.

(** C7 as stated fails: on an output that encodes ASCII only, the run with
    a differing expected result raises [UnicodeEncodeError] and prints
    nothing, where the same run without an expected result prints its line
    and ends normally. *)
Lemma mismatch_raises_on_ascii_stdout :
  run ms_elapsed 15 1 (answers 436) (Some (lit "437")) idle_ascii
  = (Raise UnicodeEncodeError,
     {| clock := ms_clock; reads := 2; stdout := [];
        encodes := ascii_only |})
  /\ run ms_elapsed 15 1 (answers 436) None idle_ascii
     = (Ok tt,
        {| clock := ms_clock; reads := 2;
           stdout := [lit "Day 15 part 1: 436 (in 1 ms)"];
           encodes := ascii_only |}).
Proof. split; reflexivity. Qed.

End Runner_example.

(** ** Day 15 *)

Section Day15_facts.

Import Day15.

Lemma last_turn_of_None (v : Z) (rev_h : list Z) :
  forall t, last_turn_of v rev_h t = None <-> ~ In v rev_h.
Proof.
  induction rev_h as [|w rest IH]; intros t; cbn.
  - tauto.
  - destruct (decide (w = v)) as [->|Hne].
    + split; [discriminate|]. intros Hn. exfalso. apply Hn. now left.
    + rewrite IH. split.
      * intros Hn [Heq|Hin]; [contradiction|]. now apply Hn.
      * intros Hn Hin. apply Hn. now right.
Qed.

Lemma fold_insert_empty_lookup (start : list Z) (v : Z) :
  forall m : gmap Z (list Z),
  fold_left (fun m n => <[n := []]> m) start m !! v
  = if in_dec Z.eq_dec v start then Some [] else m !! v.
Proof.
  induction start as [|n start IH]; intros m; cbn [fold_left].
  - destruct (in_dec Z.eq_dec v []) as [[]|]; reflexivity.
  - rewrite IH.
    destruct (in_dec Z.eq_dec v start) as [Hin|Hnin].
    + destruct (in_dec Z.eq_dec v (n :: start)) as [|Hn]; [reflexivity|].
      exfalso. apply Hn. now right.
    + destruct (decide (n = v)) as [->|Hne].
      * rewrite lookup_insert_eq.
        destruct (in_dec Z.eq_dec v (v :: start)) as [|Hn]; [reflexivity|].
        exfalso. apply Hn. now left.
      * rewrite lookup_insert_ne by exact Hne.
        destruct (in_dec Z.eq_dec v (n :: start)) as [[Heq|Hin]|]; 
          [contradiction|contradiction|reflexivity].
Qed.

Lemma init_starting (front : list Z) (l : Z) :
  exists g0, init (front ++ [l]) = Ok g0 /\ starting (front ++ [l]) l 0 g0.
Proof.
  unfold init, last_item. rewrite rev_app_distr. cbn [rev app mbind result_bind].
  eexists. split; [reflexivity|].
  unfold starting. cbn [i last numbers_turns take rev last_turn_of].
  split; [reflexivity|split; [reflexivity|split]].
  - intros v Hv. rewrite fold_insert_empty_lookup in Hv.
    destruct (in_dec Z.eq_dec v (front ++ [l])); [discriminate|assumption].
  - intros v ts Hv. rewrite fold_insert_empty_lookup in Hv.
    destruct (in_dec Z.eq_dec v (front ++ [l])) as [Hin|]; [|discriminate].
    split; [exact Hin|]. now injection Hv as <-.
Qed.

(** One [next] in the [for] loop: the [k]-th starting number. *)
Lemma next_starting (start : list Z) (l : Z) (k : nat) (g : game) (n : Z) :
  starting start l k g -> start !! k = Some n ->
  exists g', next start g = Ok (n, g') /\ starting start l (S k) g'.
Proof.
  intros (Hi & Hl & Hnone & Hsome) Hk.
  pose proof (lookup_lt_Some _ _ _ Hk) as Hlt.
  unfold next, item. rewrite Hi, Nat2Z.id, Hk.
  destruct (Z.ltb_spec (Z.of_nat k) (Z.of_nat (length start))); [|lia].
  cbn [mbind result_bind]. eexists. split; [reflexivity|].
  unfold starting. cbn [i last numbers_turns].
  rewrite (take_S_r _ _ _ Hk), rev_app_distr. cbn [rev app last_turn_of].
  replace (Z.of_nat (S k) - 1) with (Z.of_nat k) by lia.
  split; [lia|split; [exact Hl|split]].
  - intros v Hv. apply lookup_insert_None in Hv as [Hv _]. now apply Hnone.
  - intros v ts Hv. destruct (decide (n = v)) as [->|Hne].
    + rewrite lookup_insert_eq in Hv. injection Hv as <-.
      split; [|reflexivity].
      apply list_elem_of_In, list_elem_of_lookup. eauto.
    + rewrite lookup_insert_ne in Hv by exact Hne.
      exact (Hsome v ts Hv).
Qed.

Lemma play_starting (start : list Z) (l : Z) (m : nat) :
  forall k g, starting start l k g -> (k + m <= length start)%nat ->
  exists g', play m start g = Ok (take m (drop k start), g')
             /\ starting start l (k + m) g'.
Proof.
  induction m as [|m IH]; intros k g Hg Hle.
  - exists g. rewrite Nat.add_0_r. split; [reflexivity|exact Hg].
  - destruct (lookup_lt_is_Some_2 start k ltac:(lia)) as [n Hn].
    destruct (next_starting _ _ _ _ _ Hg Hn) as (g1 & Hnext & Hg1).
    destruct (IH (S k) g1 Hg1 ltac:(lia)) as (g2 & Hplay & Hg2).
    exists g2. cbn [play]. rewrite Hnext. cbn [mbind result_bind].
    rewrite Hplay. cbn [mbind result_bind].
    rewrite (drop_S _ _ _ Hn). cbn [take].
    replace (k + S m)%nat with (S k + m)%nat by lia.
    split; [reflexivity|exact Hg2].
Qed.

(** With all starting numbers read, and the last of them read for the
    first time, the [while] loop starts from what it expects. *)
Lemma starting_playing (front : list Z) (l : Z) (g : game) :
  ~ In l front ->
  starting (front ++ [l]) l (length (front ++ [l])) g ->
  playing (rev (front ++ [l])) g.
Proof.
  intros Hfresh (Hi & Hl & Hnone & Hsome).
  rewrite firstn_all in Hsome.
  rewrite rev_app_distr in *. cbn [rev app] in *.
  rewrite length_app in *. cbn [length] in *.
  unfold playing. rewrite length_rev.
  replace (Z.of_nat (length front + 1) - 1)
    with (Z.of_nat (length front)) in Hsome by lia.
  assert (Hold : last_turn_of l (rev front) (Z.of_nat (length front) - 1)
                 = None).
  { apply last_turn_of_None. now rewrite <- in_rev. }
  split; [lia|split; [exact Hl|split; [|split]]].
  - intros v Hv Hin. apply (Hnone v Hv).
    destruct Hin as [<-|Hin].
    + apply in_or_app. right. now left.
    + apply in_or_app. left. now apply in_rev.
  - intros v ts Hv. destruct (Hsome v ts Hv) as [Hin ->].
    destruct (last_turn_of v (l :: rev front) (Z.of_nat (length front)))
      as [t|] eqn:Ht.
    + exists t. split; reflexivity.
    + exfalso. apply last_turn_of_None in Ht. apply Ht.
      apply in_app_or in Hin as [Hin|[<-|[]]].
      * right. now apply in_rev in Hin.
      * now left.
  - rewrite Hold.
    destruct (numbers_turns g !! l) as [ts|] eqn:Hts.
    + destruct (Hsome l ts Hts) as [_ ->]. cbn [last_turn_of].
      now destruct (decide (l = l)).
    + exfalso. apply (Hnone l Hts). apply in_or_app. right. now left.
Qed.

(** One [next] in the [while] loop: the number the rule gives. *)
Lemma next_playing (start rev_h : list Z) (g : game) :
  playing rev_h g -> (length start <= length rev_h)%nat ->
  exists u g', next start g = Ok (u, g')
               /\ rule_next (rev rev_h) = Some u
               /\ playing (u :: rev_h) g'.
Proof.
  destruct rev_h as [|v0 before]; [contradiction|].
  intros (Hi & Hl & Hnone & Hsome & Hlast) Hlen. cbn [length] in Hlen.
  set (t0 := Z.of_nat (length before)) in *.
  set (u := match last_turn_of v0 before (t0 - 1) with
            | None => 0
            | Some t' => t0 - t'
            end).
  assert (Hrule : rule_next (rev (v0 :: before)) = Some u).
  { unfold rule_next. rewrite rev_involutive. fold t0. subst u.
    now destruct (last_turn_of v0 before (t0 - 1)). }
  assert (Hvalue :
            next start g
            = '(v, g') ← produce g u;
              Ok (v, {| numbers_turns := numbers_turns g'; last := last g';
                        i := i g' + 1 |})).
  { unfold next. rewrite Hi, Hl, Hlast.
    destruct (Z.ltb_spec (t0 + 1) (Z.of_nat (length start))); [lia|].
    subst u. now destruct (last_turn_of v0 before (t0 - 1)). }
  exists u.
  assert (Hturn : forall v, v <> u ->
            last_turn_of v (u :: v0 :: before)
              (Z.of_nat (length (v0 :: before)))
            = last_turn_of v (v0 :: before) t0).
  { intros v Hv. cbn [last_turn_of length].
    destruct (decide (u = v)); [congruence|].
    replace (Z.of_nat (S (length before)) - 1) with t0 by lia.
    reflexivity. }
  rewrite Hvalue. unfold produce.
  destruct (numbers_turns g !! u) as [ts|] eqn:Hu.
  - destruct (Hsome u ts Hu) as (t & Hts & Ht).
    rewrite Hts. cbn [mbind result_bind].
    eexists. split; [reflexivity|split; [exact Hrule|]].
    unfold playing. cbn [i last numbers_turns].
    replace (Z.of_nat (length (v0 :: before)) - 1) with t0
      by (cbn [length]; lia).
    rewrite Ht, lookup_insert_eq.
    split; [cbn [length]; lia|split; [reflexivity|split; [|split]]].
    + intros v Hv. apply lookup_insert_None in Hv as [Hv Hne].
      intros [Heq|Hin]; [congruence|]. exact (Hnone v Hv Hin).
    + intros v ts' Hv. destruct (decide (u = v)) as [<-|Hne].
      * rewrite lookup_insert_eq in Hv. injection Hv as <-.
        eexists. split; [reflexivity|].
        cbn [last_turn_of]. destruct (decide (u = u)); [|congruence].
        f_equal. cbn [length]. lia.
      * rewrite lookup_insert_ne in Hv by exact Hne.
        destruct (Hsome v ts' Hv) as (t' & Hts' & Ht').
        exists t'. split; [exact Hts'|].
        rewrite Hturn by congruence. exact Ht'.
    + do 3 f_equal. cbn [length]. lia.
  - cbn [mbind result_bind].
    eexists. split; [reflexivity|split; [exact Hrule|]].
    unfold playing. cbn [i last numbers_turns].
    replace (Z.of_nat (length (v0 :: before)) - 1) with t0
      by (cbn [length]; lia).
    assert (Hfresh : last_turn_of u (v0 :: before) t0 = None).
    { apply last_turn_of_None. exact (Hnone u Hu). }
    rewrite Hfresh, lookup_insert_eq.
    split; [cbn [length]; lia|split; [reflexivity|split; [|split]]].
    + intros v Hv. apply lookup_insert_None in Hv as [Hv Hne].
      intros [Heq|Hin]; [congruence|]. exact (Hnone v Hv Hin).
    + intros v ts' Hv. destruct (decide (u = v)) as [<-|Hne].
      * rewrite lookup_insert_eq in Hv. injection Hv as <-.
        eexists. split; [reflexivity|].
        cbn [last_turn_of]. destruct (decide (u = u)); [|congruence].
        f_equal. cbn [length]. lia.
      * rewrite lookup_insert_ne in Hv by exact Hne.
        destruct (Hsome v ts' Hv) as (t' & Hts' & Ht').
        exists t'. split; [exact Hts'|].
        rewrite Hturn by congruence. exact Ht'.
    + do 2 f_equal. cbn [length]. lia.
Qed.

Lemma play_playing (start : list Z) (n : nat) :
  forall rev_h g, playing rev_h g -> (length start <= length rev_h)%nat ->
  exists vs g', play n start g = Ok (vs, g')
    /\ length vs = n
    /\ playing (rev vs ++ rev_h) g'
    /\ forall k v, vs !! k = Some v ->
         rule_next (rev rev_h ++ take k vs) = Some v.
Proof.
  induction n as [|n IH]; intros rev_h g Hg Hlen.
  - exists [], g. repeat split; [exact Hg|]. intros k v Hk.
    now rewrite lookup_nil in Hk.
  - destruct (next_playing start rev_h g Hg Hlen) as (u & g1 & Hnext & Hu & Hg1).
    destruct (IH (u :: rev_h) g1 Hg1 ltac:(cbn [length]; lia))
      as (vs & g2 & Hplay & Hvs & Hg2 & Hrule).
    exists (u :: vs), g2. cbn [play]. rewrite Hnext. cbn [mbind result_bind].
    rewrite Hplay. cbn [mbind result_bind].
    split; [reflexivity|split; [cbn [length]; lia|split]].
    + cbn [rev]. now rewrite <- app_assoc.
    + intros [|k] v Hk.
      * injection Hk as <-. cbn [take]. now rewrite app_nil_r.
      * cbn [take]. specialize (Hrule k v Hk). cbn [rev] in Hrule.
        now rewrite <- app_assoc in Hrule.
Qed.

Lemma play_app (start : list Z) (a b : nat) :
  forall g vs1 g1 vs2 g2,
  play a start g = Ok (vs1, g1) -> play b start g1 = Ok (vs2, g2) ->
  play (a + b) start g = Ok (vs1 ++ vs2, g2).
Proof.
  induction a as [|a IH]; intros g vs1 g1 vs2 g2 Ha Hb.
  - injection Ha as <- <-. exact Hb.
  - cbn [play Nat.add] in *.
    destruct (next start g) as [[v g']|e]; [|discriminate].
    cbn [mbind result_bind] in *.
    destruct (play a start g') as [[vs g'']|e] eqn:Hplay; [|discriminate].
    cbn [mbind result_bind] in Ha. injection Ha as <- <-.
    rewrite (IH _ _ _ _ _ Hplay Hb). reflexivity.
Qed.

(** Where the last starting number stands nowhere else in the starting
    numbers, the generator first produces the starting numbers and then
    follows the rule of the game for ever. *)
Lemma play_follows_rule (front : list Z) (l : Z) (n : nat) :
  ~ In l front ->
  let start := front ++ [l] in
  exists g0 vs g,
    init start = Ok g0
    /\ play n start g0 = Ok (vs, g)
    /\ length vs = n
    /\ take (length start) vs = take n start
    /\ forall k v, (length start <= k)%nat -> vs !! k = Some v ->
         rule_next (take k vs) = Some v.
Proof.
  intros Hfresh start.
  destruct (init_starting front l) as (g0 & Hinit & Hg0).
  fold start in Hinit, Hg0. exists g0.
  destruct (Nat.le_gt_cases n (length start)) as [Hn|Hn].
  - destruct (play_starting start l n 0 g0 Hg0 ltac:(lia))
      as (g & Hplay & _).
    rewrite drop_0 in Hplay.
    exists (take n start), g.
    split; [exact Hinit|split; [exact Hplay|split; [|split]]].
    + rewrite length_take. lia.
    + rewrite take_take. f_equal. lia.
    + intros k v Hk Hv. apply lookup_lt_Some in Hv.
      rewrite length_take in Hv. lia.
  - destruct (play_starting start l (length start) 0 g0 Hg0 ltac:(lia))
      as (g1 & Hplay1 & Hg1).
    rewrite drop_0, firstn_all in Hplay1. cbn [Nat.add] in Hg1.
    pose proof (starting_playing front l g1 Hfresh Hg1) as Hp.
    fold start in Hp.
    destruct (play_playing start (n - length start) (rev start) g1 Hp
                ltac:(rewrite length_rev; lia))
      as (vs & g & Hplay2 & Hvs & _ & Hrule).
    rewrite rev_involutive in Hrule.
    exists (start ++ vs), g.
    split; [exact Hinit|split; [|split; [|split]]].
    + replace n with (length start + (n - length start))%nat at 1 by lia.
      exact (play_app _ _ _ _ _ _ _ _ Hplay1 Hplay2).
    + rewrite length_app. lia.
    + rewrite take_app_length. symmetry. apply take_ge. lia.
    + intros k v Hk Hv.
      rewrite lookup_app_r in Hv by exact Hk.
      specialize (Hrule _ _ Hv).
      rewrite take_app_ge by exact Hk.
      exact Hrule.
Qed.

(** C5: for the starting numbers 0,3,6 the tenth number produced is 0
    and [part1] returns 436, the 2020th.  The rule of the game, 0 after a
    number spoken for the first time and else the distance between its
    two most recent turns, is broken when the last starting number stands
    earlier in the starting numbers too: after 3,3 the rule gives 1, the
    generator produces 0. *)
Theorem memory_game_repeated_start :
  spoken 10 ["0,3,6"%string] = Ok [0; 3; 6; 0; 3; 3; 1; 0; 4; 0]
  /\ part1 ["0,3,6"%string] = Ok 436
  /\ spoken 3 ["3,3"%string] = Ok [3; 3; 0]
  /\ rule_next [3; 3] = Some 1.
Proof. repeat split; vm_compute; reflexivity. Qed.

End Day15_facts.

(** * Further properties of the code *)

(** ** Day 1: the two parts as wholes *)

Section Day1_more.

Import Day1 Day1Aux.

Lemma int_raises_ValueError (s : string) (e : exn) :
  int s = Raise e -> e = ValueError.
Proof.
  unfold int.
  destruct (match skip_space s with
            | String "+" s' => unsigned_int s'
            | String "-" s' => Z.opp <$> unsigned_int s'
            | _ => unsigned_int (skip_space s)
            end); [discriminate|].
  now intros [= <-].
Qed.

Lemma int_empty : int EmptyString = Raise ValueError.
Proof. reflexivity. Qed.

Lemma part1_from_shift (input : list string) :
  forall sum r, part1_from sum input = Ok r ->
  forall sum', part1_from sum' input = Ok (r - sum + sum').
Proof.
  induction input as [|line rest IH]; intros sum r Hr sum'; cbn [part1_from] in *.
  - injection Hr as <-. f_equal. lia.
  - destruct (is_empty line); [now apply IH|].
    destruct (int line) as [m|e]; [|discriminate].
    cbn [mbind result_bind] in *.
    rewrite (IH _ _ Hr (sum' + calculate_module_fuel m)). f_equal. lia.
Qed.

Lemma part1_from_app (a b : list string) :
  forall sum x, part1_from sum a = Ok x ->
  part1_from sum (a ++ b) = part1_from x b.
Proof.
  induction a as [|line rest IH]; intros sum x Hx; cbn [part1_from app] in *.
  - now injection Hx as <-.
  - destruct (is_empty line); [now apply IH|].
    destruct (int line) as [m|e]; [|discriminate].
    cbn [mbind result_bind] in *. now apply IH.
Qed.

(** X1: [part1] passes over an empty line wherever it stands, [part2] ends
    at the first one: what follows it has no effect on the result. *)
Theorem empty_line_skipped_or_final (fuel : nat) (a b : list string) :
  part1 (a ++ EmptyString :: b) = part1 (a ++ b)
  /\ part2 fuel (a ++ EmptyString :: b) = part2 fuel a.
Proof.
  unfold part1, part2. generalize 0 as sum.
  induction a as [|line rest IH]; intros sum.
  - cbn. split; reflexivity.
  - cbn [app part1_from part2_from].
    destruct (is_empty line).
    + destruct (IH sum) as [H1 _]. split; auto.
    + destruct (int line) as [m|e]; cbn [mbind result_bind].
      * destruct (IH (sum + calculate_module_fuel m)) as [H1 _].
        split; [exact H1|].
        destruct (while_loop fuel m sum) as [sum'|]; [|reflexivity].
        now destruct (IH sum') as [_ H2].
      * split; reflexivity.
Qed.

Lemma part1_from_cases (input : list string) :
  forall sum,
  (exists masses,
     Forall2 (fun line m => int line = Ok m) (nonempty_lines input) masses
     /\ part1_from sum input
        = Ok (sum + Zsum (map calculate_module_fuel masses)))
  \/ (part1_from sum input = Raise ValueError
      /\ exists line, In line input /\ line <> EmptyString
                      /\ int line = Raise ValueError).
Proof.
  induction input as [|line rest IH]; intros sum.
  - left. exists []. split; [constructor|]. cbn. f_equal. lia.
  - cbn [part1_from nonempty_lines List.filter].
    destruct line as [|c line']; cbn [is_empty negb].
    + destruct (IH sum) as [(ms & Hms & Hr)|(Hr & l & Hin & Hne & Hl)].
      * left. exists ms. split; assumption.
      * right. split; [exact Hr|]. exists l. repeat split; auto. now right.
    + destruct (int (String c line')) as [m|e] eqn:Hint.
      * cbn [mbind result_bind].
        destruct (IH (sum + calculate_module_fuel m))
          as [(ms & Hms & Hr)|(Hr & l & Hin & Hne & Hl)].
        -- left. exists (m :: ms). split; [now constructor|].
           rewrite Hr. cbn [map Zsum fold_right]. f_equal.
           unfold Zsum. lia.
        -- right. split; [exact Hr|]. exists l. repeat split; auto. now right.
      * right. pose proof (int_raises_ValueError _ _ Hint) as ->.
        split; [reflexivity|]. exists (String c line').
        repeat split; [now left|discriminate|exact Hint].
Qed.

(** X2: [part1] returns the sum of the fuel of all lines that are not
    empty, unless one of them is not an integer: then it raises
    [ValueError]. *)
Theorem part1_sum_or_value_error (input : list string) :
  (exists masses,
     Forall2 (fun line m => int line = Ok m) (nonempty_lines input) masses
     /\ part1 input = Ok (Zsum (map calculate_module_fuel masses)))
  \/ (part1 input = Raise ValueError
      /\ exists line, In line input /\ line <> EmptyString
                      /\ int line = Raise ValueError).
Proof. exact (part1_from_cases input 0). Qed.

Lemma part2_from_terminates (input : list string) :
  exists n : nat, forall sum, exists r,
    forall fuel, (n <= fuel)%nat -> part2_from fuel sum input = Some r.
Proof.
  induction input as [|line rest [n IH]].
  - exists O. intros sum. eexists. intros fuel _. reflexivity.
  - destruct (is_empty line) eqn:Hempty.
    { exists O. intros sum. eexists. intros fuel _. cbn [part2_from].
      rewrite Hempty. reflexivity. }
    destruct (int line) as [mass|e] eqn:Hint.
    + exists (Nat.max (S (Z.to_nat mass)) n). intros sum.
      destruct (while_loop_sum (S (Z.to_nat mass)) mass sum ltac:(lia))
        as (k & _ & _ & Hrun).
      destruct (IH (sum + Zsum (map (increment mass) (seq 0 k)))) as [r Hr].
      exists r. intros fuel Hfuel. cbn [part2_from].
      rewrite Hempty, Hint.
      rewrite (while_loop_more_fuel _ fuel _ _ _ Hrun) by lia.
      apply Hr. lia.
    + exists O. intros sum. eexists. intros fuel _. cbn [part2_from].
      rewrite Hempty, Hint. reflexivity.
Qed.

(** X3: [part2] ends on every input: from some number of passes on, each
    inner loop has enough of them and [part2] gives one and the same
    result. *)
Theorem part2_terminates (input : list string) :
  exists (n : nat) (r : result Z),
    forall fuel, (n <= fuel)%nat -> part2 fuel input = Some r.
Proof.
  destruct (part2_from_terminates input) as [n Hn].
  destruct (Hn 0) as [r Hr]. now exists n, r.
Qed.

Lemma part2_terminates_witness :
  exists (n : nat) (r : result Z),
    forall fuel, (n <= fuel)%nat ->
    part2 fuel ["1969"; "x"]%string = Some r.
Proof. exact (part2_terminates ["1969"; "x"]%string). Defined.

Lemma while_loop_bounds (fuel : nat) :
  forall mass sum r, while_loop fuel mass sum = Some r ->
  sum <= r
  /\ sum + calculate_module_fuel mass <= r
  /\ 2 * (r - sum) <= Z.max 0 mass.
Proof.
  induction fuel as [|fuel IH]; intros mass sum r Hrun; [discriminate|].
  cbn [while_loop] in Hrun. unfold loop_step in Hrun.
  pose proof (calculate_module_fuel_bounds mass) as Hb.
  destruct (Z.ltb_spec 0 (calculate_module_fuel mass)) as [Hpos|Hneg].
  - destruct (IH _ _ _ Hrun) as (H1 & _ & H3). lia.
  - injection Hrun as <-. lia.
Qed.

(** X4: the fuel that the loop of [part2] adds for one module is never
    negative, never less than what [part1] counts for it, and at most half
    the mass of the module. *)
Theorem module_fuel_bounds (fuel : nat) (mass sum r : Z)
  (Hrun : while_loop fuel mass sum = Some r) :
  0 <= r - sum
  /\ calculate_module_fuel mass <= r - sum
  /\ 2 * (r - sum) <= Z.max 0 mass.
Proof. destruct (while_loop_bounds fuel mass sum r Hrun). lia. Qed.

Lemma module_fuel_bounds_witness :
  while_loop 10 1969 0 = Some 966
  /\ 0 <= 966 - 0
  /\ calculate_module_fuel 1969 <= 966 - 0
  /\ 2 * (966 - 0) <= Z.max 0 1969.
Proof.
  split; [reflexivity|].
  exact (module_fuel_bounds 10 1969 0 966 eq_refl).
Defined.

Lemma part2_from_bounds (fuel : nat) (input : list string) :
  forall sum r, part2_from fuel sum input = Some (Ok r) ->
  sum <= r
  /\ (Forall (fun line => line <> EmptyString) input ->
      forall sum1 p, part1_from sum1 input = Ok p -> p - sum1 <= r - sum).
Proof.
  induction input as [|line rest IH]; intros sum r Hr; cbn [part2_from] in Hr.
  - injection Hr as <-. split; [lia|].
    intros _ sum1 p Hp. cbn in Hp. injection Hp as <-. lia.
  - destruct line as [|c line']; cbn [is_empty] in Hr.
    { injection Hr as <-. split; [lia|].
      intros Hne. inversion Hne as [|? ? Hhead _]. now contradiction Hhead. }
    destruct (int (String c line')) as [mass|e] eqn:Hint; [|discriminate].
    destruct (while_loop fuel mass sum) as [sum'|] eqn:Hloop; [|discriminate].
    destruct (while_loop_bounds _ _ _ _ Hloop) as (H1 & H2 & _).
    destruct (IH _ _ Hr) as [H3 H4].
    split; [lia|].
    intros Hne sum1 p Hp. inversion Hne as [|? ? _ Hrest]; subst.
    cbn [part1_from is_empty] in Hp. rewrite Hint in Hp.
    cbn [mbind result_bind] in Hp.
    specialize (H4 Hrest _ _ Hp). lia.
Qed.

(** X5: the total of [part2] is never negative, and on an input without
    empty lines it is never below the total of [part1]. *)
Theorem part2_not_below_part1 (fuel : nat) (input : list string) (r : Z)
  (Hr : part2 fuel input = Some (Ok r)) :
  0 <= r
  /\ (Forall (fun line => line <> EmptyString) input ->
      forall p, part1 input = Ok p -> p <= r).
Proof.
  destruct (part2_from_bounds fuel input 0 r Hr) as [H1 H2].
  split; [exact H1|].
  intros Hne p Hp. specialize (H2 Hne 0 p Hp). lia.
Qed.

Lemma part2_not_below_part1_witness :
  part2 10 ["14"; "2"]%string = Some (Ok 2)
  /\ 0 <= 2
  /\ (part1 ["14"; "2"]%string = Ok 0 -> 0 <= 2).
Proof.
  split; [reflexivity|].
  destruct (part2_not_below_part1 10 ["14"; "2"]%string 2 eq_refl)
    as [H1 H2].
  split; [exact H1|].
  apply H2. repeat constructor; discriminate.
Defined.

End Day1_more.

(** ** Day 12: sailing as a whole *)

Section Day12_more.

Import Day12 Day12Aux.

Lemma move_reach (depth : nat) (s : Ship) (a : Action) :
  cardinal (direction s) ->
  exists s', move (Datatypes.S depth) s a = Ok s'
    /\ cardinal (direction s')
    /\ manhattan s' <= manhattan s + reach a.
Proof.
  intros Hs. destruct a as [d n]. unfold manhattan, reach. cbn [dir dist].
  assert (Hcard : forall dp d', cardinal d' ->
            exists s', move dp s {| dir := d'; dist := n |} = Ok s'
              /\ cardinal (direction s')
              /\ Z.abs (fst (pos s')) + Z.abs (snd (pos s'))
                 <= Z.abs (fst (pos s)) + Z.abs (snd (pos s)) + Z.abs n).
  { intros dp d' Hd'.
    destruct (move_cardinal_action dp s {| dir := d'; dist := n |} Hd')
      as (s' & Hm & Hh & _ & Hdist).
    exists s'. split; [exact Hm|]. split; [now rewrite Hh|].
    cbn [dist] in Hdist. lia. }
  destruct d; cbv iota.
  1-4: apply Hcard; unfold cardinal; auto.
  - eexists. split; [exact (move_L _ s n Hs)|]. cbn [direction pos].
    split; [|lia]. apply iter_cardinal; auto using counter_clockwise_cardinal.
  - eexists. split; [exact (move_R _ s n Hs)|]. cbn [direction pos].
    split; [|lia]. apply iter_cardinal; auto using clockwise_cardinal.
  - replace (move (Datatypes.S depth) s {| dir := F; dist := n |})
      with (move depth s {| dir := direction s; dist := n |})
      by (destruct s as [h [x y]]; reflexivity).
    exact (Hcard _ _ Hs).
Qed.

(** X6: a ship whose heading is cardinal can make every move: no action
    raises, and the heading is cardinal again. *)
Theorem move_never_raises (depth : nat) (s : Ship) (a : Action)
  (Hs : cardinal (direction s)) :
  exists s', move (Datatypes.S depth) s a = Ok s' /\ cardinal (direction s').
Proof.
  destruct (move_reach depth s a Hs) as (s' & Hm & Hc & _). eauto.
Qed.

Lemma move_never_raises_witness :
  exists s', move 1 new_ship {| dir := F; dist := 7 |} = Ok s'
             /\ cardinal (direction s').
Proof.
  exact (move_never_raises 0 new_ship {| dir := F; dist := 7 |}
           (or_intror (or_intror (or_introl eq_refl)))).
Defined.

(** Sailing two lists of lines one after the other is sailing their
    concatenation. *)
Lemma sail_app (depth : nat) (a b : list string) (s : Ship) :
  sail depth s (a ++ b) = (s' ← sail depth s a; sail depth s' b).
Proof.
  revert s. induction a as [|line rest IH]; intros s; [reflexivity|].
  cbn [app sail].
  destruct (parse_action line) as [action|e]; [|reflexivity].
  cbn [mbind result_bind].
  destruct (move depth s action) as [s1|e]; [|reflexivity].
  cbn [mbind result_bind]. apply IH.
Qed.

Lemma sail_reach (depth : nat) (input : list string) :
  forall actions s,
  Forall2 (fun line a => parse_action line = Ok a) input actions ->
  cardinal (direction s) ->
  exists s', sail (Datatypes.S depth) s input = Ok s'
    /\ cardinal (direction s')
    /\ manhattan s' <= manhattan s + total_reach actions.
Proof.
  induction input as [|line rest IH]; intros actions s Hparse Hs;
    inversion Hparse as [|? a ? actions' Ha Hrest]; subst.
  - exists s. split; [reflexivity|]. split; [exact Hs|]. cbn. lia.
  - destruct (move_reach depth s a Hs) as (s1 & Hm & Hc1 & Hd1).
    destruct (IH actions' s1 Hrest Hc1) as (s' & Hsail & Hc & Hd).
    exists s'. cbn [sail]. rewrite Ha. cbn [mbind result_bind].
    rewrite Hm. cbn [mbind result_bind].
    split; [exact Hsail|]. split; [exact Hc|].
    cbn [total_reach fold_right]. fold (total_reach actions'). lia.
Qed.

(** X7: when every line is an action, [part1] returns: a distance that is
    not negative and not more than the magnitudes of the N, S, E, W and F
    actions taken together. *)
Theorem part1_returns_bounded (depth : nat) (input : list string)
  (actions : list Action)
  (Hparse : Forall2 (fun line a => parse_action line = Ok a) input actions) :
  exists d, part1 (Datatypes.S depth) input = Ok d
            /\ 0 <= d <= total_reach actions.
Proof.
  destruct (sail_reach depth input actions new_ship Hparse
              (or_intror (or_intror (or_introl eq_refl))))
    as (s' & Hsail & _ & Hd).
  exists (manhattan s'). unfold part1. rewrite Hsail.
  split; [reflexivity|]. unfold manhattan in *. cbn in Hd. lia.
Qed.

Lemma part1_returns_bounded_witness :
  exists d, part1 1 ["F10"; "N3"; "R90"]%string = Ok d
            /\ 0 <= d <= 13.
Proof.
  refine (part1_returns_bounded 0 ["F10"; "N3"; "R90"]%string
            [{| dir := F; dist := 10 |}; {| dir := N; dist := 3 |};
             {| dir := R; dist := 90 |}] _).
  repeat constructor.
Defined.

Lemma Direction_of_name_error (c : ascii) (e : exn) :
  Direction_of_name c = Raise e -> e = KeyError.
Proof.
  destruct c as [[] [] [] [] [] [] [] []]; cbn; intros [= <-]; reflexivity.
Qed.

Lemma parse_action_error (line : string) (e : exn) :
  parse_action line = Raise e ->
  (line = EmptyString /\ e = IndexError)
  \/ (exists c rest, line = String c rest
        /\ ((Direction_of_name c = Raise KeyError /\ e = KeyError)
            \/ (exists d, Direction_of_name c = Ok d
                  /\ int rest = Raise ValueError /\ e = ValueError))).
Proof.
  destruct line as [|c rest]; cbn [parse_action].
  - intros [= <-]. now left.
  - intros He. right. exists c, rest. split; [reflexivity|].
    destruct (Direction_of_name c) as [d|e'] eqn:Hd.
    + right. exists d. split; [reflexivity|]. cbn [mbind result_bind] in He.
      destruct (int rest) as [n|e''] eqn:Hn; [discriminate|].
      cbn [mbind result_bind] in He. injection He as <-.
      now rewrite (int_raises_ValueError _ _ Hn) in *.
    + left. cbn [mbind result_bind] in He. injection He as <-.
      pose proof (Direction_of_name_error _ _ Hd) as ->. now split.
Qed.

(** X8: [part1] raises at the first line that is not an action, with the
    error of that line, and does not look at the lines behind it: the
    error is [IndexError] for an empty line, [KeyError] for a first letter
    that names no direction, whatever follows the letter, and [ValueError]
    for a magnitude that is not an integer. *)
Theorem part1_raises_at_first_bad_line (depth : nat)
  (good : list string) (actions : list Action) (bad : string)
  (rest : list string) (e : exn)
  (Hgood : Forall2 (fun line a => parse_action line = Ok a) good actions)
  (Hbad : parse_action bad = Raise e) :
  part1 (Datatypes.S depth) (good ++ bad :: rest) = Raise e
  /\ ((bad = EmptyString /\ e = IndexError)
      \/ (exists c tail, bad = String c tail
            /\ ((Direction_of_name c = Raise KeyError /\ e = KeyError)
                \/ (exists d, Direction_of_name c = Ok d
                      /\ int tail = Raise ValueError /\ e = ValueError)))).
Proof.
  split; [|exact (parse_action_error bad e Hbad)].
  destruct (sail_reach depth good actions new_ship Hgood
              (or_intror (or_intror (or_introl eq_refl))))
    as (s' & Hsail & _ & _).
  unfold part1. rewrite sail_app, Hsail. cbn [mbind result_bind sail].
  now rewrite Hbad.
Qed.

Lemma part1_raises_at_first_bad_line_witness :
  part1 1 ["F10"; "X3"; "N"]%string = Raise KeyError.
Proof.
  refine (proj1 (part1_raises_at_first_bad_line 0 ["F10"%string]
                   [{| dir := F; dist := 10 |}] "X3"%string ["N"%string]
                   KeyError _ eq_refl)).
  repeat constructor.
Defined.

Lemma range_len_small (d : Z) : d < 90 -> range_len (d / 90) = O.
Proof.
  intros Hd. unfold range_len.
  assert (d / 90 < 1) by (apply Z.div_lt_upper_bound; lia).
  lia.
Qed.

(** X9: an L or R action of less than 90 units, a negative one
    included, leaves the ship as it is, whatever its heading. *)
Theorem turn_below_90_is_idle (depth : nat) (s : Ship) (a : Action)
  (Hdir : dir a = L \/ dir a = R) (Hdist : dist a < 90) :
  move depth s a = Ok s.
Proof.
  destruct a as [d n], s as [h [x y]]. cbn [dir dist] in *.
  destruct Hdir as [-> | ->]; destruct depth; cbn [move dir dist pos direction];
    rewrite (range_len_small n Hdist); reflexivity.
Qed.

Lemma turn_below_90_is_idle_witness :
  move 0 new_ship {| dir := R; dist := 89 |} = Ok new_ship.
Proof.
  apply (turn_below_90_is_idle 0 new_ship {| dir := R; dist := 89 |}).
  - now right.
  - cbn. lia.
Defined.

Lemma counter_clockwise_clockwise (d : Direction) :
  counter_clockwise (clockwise d) = d.
Proof. now destruct d. Qed.

Lemma clockwise_counter_clockwise (d : Direction) :
  clockwise (counter_clockwise d) = d.
Proof. now destruct d. Qed.

Lemma iter_inverse (f g : Direction -> Direction) (n : nat) :
  (forall d, g (f d) = d) ->
  forall d, Nat.iter n g (Nat.iter n f d) = d.
Proof.
  intros Hgf. induction n as [|n IH]; intros d; [reflexivity|].
  change (Nat.iter (Datatypes.S n) f d) with (f (Nat.iter n f d)).
  rewrite Nat.iter_succ_r, Hgf. apply IH.
Qed.

(** X10: an R action followed by an L action of the same magnitude, or
    the other way round, gives the ship back, whatever the magnitude. *)
Theorem turn_and_turn_back (depth : nat) (s : Ship) (n : Z)
  (Hs : cardinal (direction s)) :
  (s1 ← move depth s {| dir := R; dist := n |};
   move depth s1 {| dir := L; dist := n |}) = Ok s
  /\ (s1 ← move depth s {| dir := L; dist := n |};
      move depth s1 {| dir := R; dist := n |}) = Ok s.
Proof.
  split.
  - rewrite (move_R _ _ _ Hs). cbn [mbind result_bind].
    rewrite move_L
      by (cbn [direction]; apply iter_cardinal;
          auto using clockwise_cardinal).
    cbn [direction pos].
    rewrite (iter_inverse _ _ _ counter_clockwise_clockwise).
    now destruct s.
  - rewrite (move_L _ _ _ Hs). cbn [mbind result_bind].
    rewrite move_R
      by (cbn [direction]; apply iter_cardinal;
          auto using counter_clockwise_cardinal).
    cbn [direction pos].
    rewrite (iter_inverse _ _ _ clockwise_counter_clockwise).
    now destruct s.
Qed.

Lemma turn_and_turn_back_witness :
  (s1 ← move 0 new_ship {| dir := R; dist := 270 |};
   move 0 s1 {| dir := L; dist := 270 |}) = Ok new_ship.
Proof.
  exact (proj1 (turn_and_turn_back 0 new_ship 270
                  (or_intror (or_intror (or_introl eq_refl))))).
Defined.

Lemma iter_add_4 (f : Direction -> Direction) (n : nat) :
  (forall d, f (f (f (f d))) = d) ->
  forall d, Nat.iter (n + 4) f d = Nat.iter n f d.
Proof.
  intros Hf d. rewrite Nat.iter_add.
  change (Nat.iter 4 f d) with (f (f (f (f d)))). now rewrite Hf.
Qed.

Lemma range_len_add_360 (n : Z) :
  0 <= n -> range_len ((n + 360) / 90) = (range_len (n / 90) + 4)%nat.
Proof.
  intros Hn. unfold range_len.
  replace (n + 360) with (n + 4 * 90) by lia.
  rewrite Z.div_add by lia.
  pose proof (Z.div_pos n 90 Hn ltac:(lia)). lia.
Qed.

(** X11: a turn is periodic: 360 units more on an R or an L action of
    magnitude 0 or more change nothing, and R 270 is L 90. *)
Theorem full_turn_changes_nothing (depth : nat) (s : Ship) (n : Z)
  (Hs : cardinal (direction s)) (Hn : 0 <= n) :
  move depth s {| dir := R; dist := n + 360 |}
  = move depth s {| dir := R; dist := n |}
  /\ move depth s {| dir := L; dist := n + 360 |}
     = move depth s {| dir := L; dist := n |}
  /\ move depth s {| dir := R; dist := 270 |}
     = move depth s {| dir := L; dist := 90 |}.
Proof.
  rewrite !(move_R _ _ _ Hs), !(move_L _ _ _ Hs).
  fold (range_len ((n + 360) / 90)) (range_len (n / 90)).
  rewrite (range_len_add_360 n Hn).
  rewrite (iter_add_4 clockwise) by (now intros []).
  rewrite (iter_add_4 counter_clockwise) by (now intros []).
  repeat split.
  destruct s as [h p]. cbn in *. destruct Hs as [->|[->|[->| ->]]]; reflexivity.
Qed.

Lemma full_turn_changes_nothing_witness :
  move 0 new_ship {| dir := R; dist := 90 + 360 |}
  = move 0 new_ship {| dir := R; dist := 90 |}.
Proof.
  refine (proj1 (full_turn_changes_nothing 0 new_ship 90
                   (or_intror (or_intror (or_introl eq_refl))) _)).
  lia.
Defined.

End Day12_more.

(** ** Day 15: the game as a whole *)

Section Day15_more.

Import Day15 Day15Aux.

Lemma split_comma_nonempty (s : string) : split_comma s <> [].
Proof.
  destruct s as [|c s']; cbn [split_comma]; [discriminate|].
  destruct (Ascii.eqb c ","); [discriminate|].
  destruct (split_comma s'); discriminate.
Qed.

(** [split(',')] loses nothing: the fields joined by commas are the
    line again; there is at least one field, and no field holds a
    comma. *)
Theorem split_comma_join (s : string) :
  join_comma (split_comma s) = s
  /\ split_comma s <> []
  /\ Forall (fun w => has_comma w = false) (split_comma s).
Proof.
  split; [|split; [apply split_comma_nonempty|]].
  - induction s as [|c s' IH]; [reflexivity|].
    cbn [split_comma].
    destruct (Ascii.eqb_spec c ","%char) as [->|Hc].
    + pose proof (split_comma_nonempty s') as Hne.
      destruct (split_comma s') as [|w ws]; [contradiction|].
      rewrite <- IH. reflexivity.
    + pose proof (split_comma_nonempty s') as Hne.
      destruct (split_comma s') as [|w ws]; [contradiction|].
      rewrite <- IH. destruct ws; reflexivity.
  - induction s as [|c s' IH]; [repeat constructor|].
    cbn [split_comma].
    destruct (Ascii.eqb c ","%char) eqn:Hc.
    + constructor; [reflexivity|exact IH].
    + destruct (split_comma s') as [|w ws]; [repeat constructor; cbn; now rewrite Hc|].
      inversion IH as [|? ? Hw Hws]; subst.
      constructor; [cbn; now rewrite Hc|exact Hws].
Qed.

Lemma map_int_length (ws : list string) :
  forall ns, map_int ws = Ok ns -> length ns = length ws.
Proof.
  induction ws as [|w ws IH]; intros ns Hns; cbn [map_int] in Hns.
  - now injection Hns as <-.
  - destruct (int w) as [n|e]; [|discriminate]. cbn [mbind result_bind] in Hns.
    destruct (map_int ws) as [ns'|e]; [|discriminate].
    cbn [mbind result_bind] in Hns. injection Hns as <-.
    cbn [length]. f_equal. now apply IH.
Qed.

Lemma map_int_error (ws : list string) (e : exn) :
  map_int ws = Raise e ->
  e = ValueError /\ exists w, In w ws /\ int w = Raise ValueError.
Proof.
  induction ws as [|w ws IH]; cbn [map_int]; [discriminate|].
  destruct (int w) as [n|e'] eqn:Hw; cbn [mbind result_bind].
  - destruct (map_int ws) as [ns|e'']; cbn [mbind result_bind];
      [discriminate|].
    intros [= <-]. destruct (IH eq_refl) as [-> (w' & Hin & Hw')].
    split; [reflexivity|]. exists w'. split; [now right|exact Hw'].
  - intros [= <-]. pose proof (int_raises_ValueError _ _ Hw) as ->.
    split; [reflexivity|]. exists w. split; [now left|exact Hw].
Qed.

Lemma parse_nonempty (input : list string) (start : list Z) :
  parse input = Ok start -> exists front l, start = front ++ [l].
Proof.
  destruct input as [|line rest]; [discriminate|]. cbn [parse].
  intros Hs. apply map_int_length in Hs.
  pose proof (split_comma_nonempty line) as Hne.
  destruct (split_comma line); [contradiction|].
  destruct start as [|n start] using rev_ind; [discriminate|]. eauto.
Qed.

(** At the end of the [for] loop the [while] loop finds what it needs,
    whatever the starting numbers. *)
Lemma starting_speaking (start : list Z) (l : Z) (g : game) :
  In l start -> starting start l (length start) g -> speaking g.
Proof.
  intros Hl (Hi & Hlast & Hnone & Hsome). rewrite firstn_all in Hsome.
  split.
  - rewrite Hlast. destruct (numbers_turns g !! l) eqn:Hg; [eauto|].
    now destruct (Hnone l Hg).
  - intros v ts Hv. destruct (Hsome v ts Hv) as [Hin ->].
    destruct (last_turn_of v (rev start) (Z.of_nat (length start) - 1))
      eqn:Ht; [now left|].
    apply last_turn_of_None in Ht. now rewrite <- in_rev in Ht.
Qed.

Lemma next_speaking (start : list Z) (g : game) :
  speaking g -> Z.of_nat (length start) <= i g ->
  exists v g', next start g = Ok (v, g')
               /\ speaking g' /\ i g' = i g + 1.
Proof.
  intros [[turns Hturns] Hlen] Hi. unfold next.
  destruct (Z.ltb_spec (i g) (Z.of_nat (length start))); [lia|].
  rewrite Hturns. cbn [mbind result_bind].
  assert (Hvalue : exists value,
            (if (length turns =? 1)%nat then Ok 0
             else match turns with
                  | [t1; t2] => Ok (t2 - t1)
                  | _ => Raise ValueError
                  end) = Ok value).
  { destruct (Hlen _ _ Hturns) as [H1|H2].
    - rewrite H1. cbn. eauto.
    - destruct turns as [|t1 [|t2 [|t3 ts]]]; try discriminate. cbn. eauto. }
  destruct Hvalue as [value ->]. cbn [mbind result_bind].
  assert (Hproduce : exists turns',
            match numbers_turns g !! value with
            | None => Ok [i g]
            | Some ts => t ← last_item ts; Ok [t; i g]
            end = Ok turns'
            /\ (length turns' = 1%nat \/ length turns' = 2%nat)).
  { destruct (numbers_turns g !! value) as [ts|] eqn:Hts.
    - unfold last_item.
      assert (Hrev : rev ts <> []).
      { intros Hr. apply (f_equal (@length Z)) in Hr.
        rewrite length_rev in Hr. destruct (Hlen _ _ Hts) as [H1|H1];
          rewrite H1 in Hr; discriminate. }
      destruct (rev ts); [contradiction|]. cbn. eauto.
    - eauto. }
  destruct Hproduce as (turns' & Hp & Hlen'). unfold produce.
  rewrite Hp. cbn [mbind result_bind].
  do 2 eexists. split; [reflexivity|].
  unfold speaking. cbn [i last numbers_turns].
  split; [|reflexivity]. split.
  - rewrite lookup_insert_eq. eauto.
  - intros v ts Hv. destruct (decide (value = v)) as [<-|Hne].
    + rewrite lookup_insert_eq in Hv. now injection Hv as <-.
    + rewrite lookup_insert_ne in Hv by exact Hne. eauto.
Qed.

Lemma play_speaking (start : list Z) (n : nat) :
  forall g, speaking g -> Z.of_nat (length start) <= i g ->
  exists vs g', play n start g = Ok (vs, g') /\ length vs = n.
Proof.
  induction n as [|n IH]; intros g Hg Hi.
  - exists [], g. split; reflexivity.
  - destruct (next_speaking start g Hg Hi) as (v & g1 & Hnext & Hg1 & Hi1).
    destruct (IH g1 Hg1 ltac:(lia)) as (vs & g2 & Hplay & Hvs).
    exists (v :: vs), g2. cbn [play]. rewrite Hnext. cbn [mbind result_bind].
    rewrite Hplay. cbn [mbind result_bind length]. split; [reflexivity|lia].
Qed.

(** From its first state the generator yields for ever, the starting
    numbers first. *)
Lemma play_returns (front : list Z) (l : Z) (n : nat) :
  let start := front ++ [l] in
  exists g0 vs g,
    init start = Ok g0
    /\ play n start g0 = Ok (vs, g)
    /\ length vs = n
    /\ take (length start) vs = take n start.
Proof.
  intros start.
  destruct (init_starting front l) as (g0 & Hinit & Hg0).
  fold start in Hinit, Hg0. exists g0.
  destruct (Nat.le_gt_cases n (length start)) as [Hn|Hn].
  - destruct (play_starting start l n 0 g0 Hg0 ltac:(lia))
      as (g & Hplay & _).
    rewrite drop_0 in Hplay.
    exists (take n start), g.
    split; [exact Hinit|split; [exact Hplay|split]].
    + rewrite length_take. lia.
    + rewrite take_take. f_equal. lia.
  - destruct (play_starting start l (length start) 0 g0 Hg0 ltac:(lia))
      as (g1 & Hplay1 & Hg1).
    rewrite drop_0, firstn_all in Hplay1. cbn [Nat.add] in Hg1.
    assert (Hl : In l start) by (apply in_or_app; right; now left).
    pose proof (starting_speaking start l g1 Hl Hg1) as Hsp.
    destruct Hg1 as (Hi1 & _).
    destruct (play_speaking start (n - length start) g1 Hsp ltac:(lia))
      as (vs & g & Hplay2 & Hvs).
    exists (start ++ vs), g.
    split; [exact Hinit|split; [|split]].
    + replace n with (length start + (n - length start))%nat at 1 by lia.
      exact (play_app _ _ _ _ _ _ _ _ Hplay1 Hplay2).
    + rewrite length_app. lia.
    + rewrite take_app_length. symmetry. apply take_ge. lia.
Qed.

Lemma play_length (start : list Z) (k : nat) :
  forall g vs g1, play k start g = Ok (vs, g1) -> length vs = k.
Proof.
  induction k as [|k IH]; intros g vs g1 Hk; cbn [play] in Hk.
  - now injection Hk as <- <-.
  - destruct (next start g) as [[v ga]|e]; [|discriminate].
    cbn [mbind result_bind] in Hk.
    destruct (play k start ga) as [[vs' gb]|e] eqn:Hp; [|discriminate].
    cbn [mbind result_bind] in Hk. injection Hk as <- <-.
    cbn [length]. f_equal. exact (IH _ _ _ Hp).
Qed.

(** One number more is one more [next]. *)
Lemma play_succ (start : list Z) (k : nat) :
  forall g,
  play (k + 1) start g
  = ('(vs1, g1) ← play k start g;
     '(v, g2) ← next start g1;
     Ok (vs1 ++ [v], g2)).
Proof.
  induction k as [|k IH]; intros g; cbn [play Nat.add].
  - cbn [mbind result_bind]. now destruct (next start g) as [[v ga]|e].
  - destruct (next start g) as [[v ga]|e]; [|reflexivity].
    cbn [mbind result_bind]. rewrite IH.
    destruct (play k start ga) as [[vs' gb]|e]; [|reflexivity].
    cbn [mbind result_bind].
    now destruct (next start gb) as [[v' gc]|e].
Qed.

Lemma islice_next_play (start : list Z) (k : nat) (g g' : game)
  (vs : list Z) :
  play (S k) start g = Ok (vs, g') ->
  exists v, vs !! k = Some v /\ islice_next k start g = Ok v.
Proof.
  replace (S k) with (k + 1)%nat by lia. rewrite play_succ.
  unfold islice_next.
  destruct (play k start g) as [[vs1 g1]|e] eqn:Hk; [|discriminate].
  cbn [mbind result_bind].
  destruct (next start g1) as [[v g2]|e]; [|discriminate].
  cbn [mbind result_bind]. intros [= <- <-].
  exists v. split; [|reflexivity].
  rewrite lookup_app_r by (rewrite (play_length _ _ _ _ _ Hk); lia).
  now rewrite (play_length _ _ _ _ _ Hk), Nat.sub_diag.
Qed.

Lemma part1_returns (input : list string) (start : list Z) :
  parse input = Ok start ->
  exists vs v,
    spoken 2020 input = Ok vs
    /\ vs !! 2019%nat = Some v
    /\ part1 input = Ok v.
Proof.
  intros Hparse.
  destruct (parse_nonempty input start Hparse) as (front & l & ->).
  destruct (play_returns front l 2020) as (g0 & vs & g & Hinit & Hplay & _).
  destruct (islice_next_play _ _ _ _ _ Hplay) as (v & Hv & Hislice).
  exists vs, v. unfold spoken, part1. rewrite Hparse.
  cbn [mbind result_bind]. rewrite Hinit. cbn [mbind result_bind].
  rewrite Hplay, Hislice. repeat split; exact Hv.
Qed.

(** X12: once the first line is a list of integers, the game never
    raises: for every [n] the generator yields [n] numbers, the starting
    numbers first, and [part1] returns the 2020th of them. *)
Theorem memory_game_never_raises (input : list string) (start : list Z)
  (Hparse : parse input = Ok start) :
  (forall n, exists vs,
     spoken n input = Ok vs
     /\ length vs = n
     /\ take (length start) vs = take n start)
  /\ exists vs v,
       spoken 2020 input = Ok vs
       /\ vs !! 2019%nat = Some v
       /\ part1 input = Ok v.
Proof.
  split.
  - destruct (parse_nonempty input start Hparse) as (front & l & ->).
    intros n.
    destruct (play_returns front l n) as (g0 & vs & g & Hinit & Hplay & Hlen & Htake).
    exists vs. unfold spoken. rewrite Hparse. cbn [mbind result_bind].
    rewrite Hinit. cbn [mbind result_bind]. rewrite Hplay.
    split; [reflexivity|split; assumption].
  - exact (part1_returns _ _ Hparse).
Qed.

Lemma memory_game_never_raises_witness :
  exists vs v,
    spoken 2020 ["3,3"%string] = Ok vs
    /\ vs !! 2019%nat = Some v
    /\ part1 ["3,3"%string] = Ok v.
Proof.
  exact (proj2 (memory_game_never_raises ["3,3"%string] [3; 3] eq_refl)).
Defined.

(** X13: [part1] raises only on account of its input: [IndexError] when
    there is no line, [ValueError] when a field of the first line is not
    an integer.  It looks at the first line only. *)
Theorem part1_raises_on_bad_input_only (input : list string) (e : exn)
  (He : part1 input = Raise e) :
  (input = [] /\ e = IndexError)
  \/ (exists line rest field,
        input = line :: rest
        /\ In field (split_comma line)
        /\ int field = Raise ValueError
        /\ e = ValueError
        /\ part1 [line] = Raise ValueError).
Proof.
  destruct (parse input) as [start|e'] eqn:Hparse.
  - destruct (part1_returns input start Hparse) as (vs & v & _ & _ & Hv).
    rewrite Hv in He. discriminate.
  - assert (e = e') as <-.
    { unfold part1 in He. rewrite Hparse in He. now injection He. }
    destruct input as [|line rest]; cbn [parse] in Hparse.
    + left. now injection Hparse as <-.
    + right. destruct (map_int_error _ _ Hparse) as [-> (w & Hin & Hw)].
      exists line, rest, w. repeat split; auto.
Qed.

Lemma part1_raises_on_bad_input_only_witness :
  exists line rest field,
    ["0,x,6"; "1"]%string = line :: rest
    /\ In field (split_comma line)
    /\ int field = Raise ValueError.
Proof.
  destruct (part1_raises_on_bad_input_only ["0,x,6"; "1"]%string ValueError
              eq_refl)
    as [[Hnil _]|(line & rest & field & H1 & H2 & H3 & _)];
    [discriminate Hnil|].
  exists line, rest, field. auto.
Defined.

Lemma last_turn_of_range (v : Z) (rev_h : list Z) :
  forall t t', last_turn_of v rev_h t = Some t' ->
  t - Z.of_nat (length rev_h) < t' <= t.
Proof.
  induction rev_h as [|w rest IH]; intros t t' Ht; cbn [last_turn_of] in Ht;
    [discriminate|].
  cbn [length]. destruct (decide (w = v)).
  - injection Ht as <-. lia.
  - specialize (IH _ _ Ht). lia.
Qed.

Lemma rule_next_range (h : list Z) (v : Z) :
  rule_next h = Some v -> 0 <= v < Z.of_nat (length h).
Proof.
  unfold rule_next. rewrite <- (length_rev h).
  destruct (rev h) as [|w before]; [discriminate|]. cbn [length].
  destruct (last_turn_of w before (Z.of_nat (length before) - 1)) as [t'|] eqn:Ht.
  - intros [= <-]. apply last_turn_of_range in Ht. lia.
  - intros [= <-]. lia.
Qed.

(** X14: when the last starting number stands nowhere else among the
    starting numbers, every number produced after them is the one the
    rule of the game gives, 0 or the distance between the two latest
    turns of the number before, and so lies between 0 and the number of
    turns played. *)
Theorem spoken_follows_rule (input : list string) (front : list Z) (l : Z)
  (n : nat) (vs : list Z)
  (Hparse : parse input = Ok (front ++ [l]))
  (Hfresh : ~ In l front)
  (Hvs : spoken n input = Ok vs) :
  forall k v, (length (front ++ [l]) <= k)%nat -> vs !! k = Some v ->
  rule_next (take k vs) = Some v /\ 0 <= v < Z.of_nat k.
Proof.
  intros k v Hk Hv.
  destruct (play_follows_rule front l n Hfresh)
    as (g0 & vs' & g & Hinit & Hplay & Hlen & _ & Hrule).
  unfold spoken in Hvs. rewrite Hparse in Hvs. cbn [mbind result_bind] in Hvs.
  rewrite Hinit in Hvs. cbn [mbind result_bind] in Hvs.
  rewrite Hplay in Hvs. cbn [mbind result_bind] in Hvs.
  injection Hvs as <-.
  pose proof (Hrule k v Hk Hv) as Hr. split; [exact Hr|].
  apply rule_next_range in Hr.
  rewrite length_take in Hr. apply lookup_lt_Some in Hv. lia.
Qed.

Lemma spoken_follows_rule_witness :
  rule_next (take 6 [0; 3; 6; 0; 3; 3; 1; 0; 4; 0]) = Some 1 /\ 0 <= 1 < 6.
Proof.
  refine (spoken_follows_rule ["0,3,6"%string] [0; 3] 6 10
            [0; 3; 6; 0; 3; 3; 1; 0; 4; 0] eq_refl _ eq_refl
            6%nat 1 _ eq_refl).
  - cbn. intuition discriminate.
  - cbn. lia.
Defined.

End Day15_more.

(** ** The loader: whole files and the console *)

Section Loader_more.

Import Advent AdventAux Disk.

Lemma readlines_shape (text : str) :
  Forall (fun l => l <> [] /\ ~ In newline (removelast l)) (readlines text).
Proof.
  induction text as [|c text IH]; [constructor|].
  cbn [readlines]. destruct (N.eqb_spec c newline) as [->|Hc].
  - constructor; [|exact IH]. split; [discriminate|]. cbn. tauto.
  - destruct (readlines text) as [|l ls].
    + constructor; [|constructor]. split; [discriminate|]. cbn. tauto.
    + inversion IH as [|? ? [Hl Hnl] Hls]; subst.
      constructor; [|exact Hls]. split; [discriminate|].
      destruct l as [|c' l]; [contradiction|].
      change (removelast (c :: c' :: l)) with (c :: removelast (c' :: l)).
      intros [Heq|Hin]; [now apply Hc|now apply Hnl].
Qed.

Lemma readlines_end_with_newline (text : str) :
  Forall ends_with_newline (removelast (readlines text)).
Proof.
  induction text as [|c text IH]; [constructor|].
  cbn [readlines]. destruct (N.eqb_spec c newline) as [->|Hc].
  - destruct (readlines text) as [|l ls]; [constructor|].
    change (removelast ([newline] :: l :: ls))
      with ([newline] :: removelast (l :: ls)).
    constructor; [now exists []|exact IH].
  - destruct (readlines text) as [|l ls]; [constructor|].
    destruct ls as [|l' ls]; [constructor|].
    change (removelast ((c :: l) :: l' :: ls))
      with ((c :: l) :: removelast (l' :: ls)).
    change (removelast (l :: l' :: ls))
      with (l :: removelast (l' :: ls)) in IH.
    inversion IH as [|? ? [body Hbody] Hrest]; subst.
    constructor; [now exists (c :: body)|exact Hrest].
Qed.

(** X15: of a file that is no fixture, [get_data] returns every line:
    put one after the other the lines are the text of the file; no line is
    empty, none holds a newline before its end, and every line but the
    last ends with a newline, so the text is cut after each of its
    newlines and nowhere else.  [get_expected_result] is [None] for
    it. *)
Theorem get_data_returns_whole_file (fs : files) (d : PuzzleData) (text : str)
  (Hreal : is_test_file d = false)
  (Hfile : fs !! filename d = Some text) :
  exists lines,
    get_data fs d = Ok lines
    /\ concat lines = text
    /\ Forall (fun l => l <> [] /\ ~ In newline (removelast l)) lines
    /\ Forall ends_with_newline (removelast lines)
    /\ get_expected_result fs d = Ok None.
Proof.
  exists (readlines text). unfold get_data, get_expected_result, open.
  rewrite Hfile, Hreal. cbn [negb mbind result_bind].
  split; [reflexivity|]. split; [apply concat_readlines|].
  split; [apply readlines_shape|].
  split; [apply readlines_end_with_newline|reflexivity].
Qed.

Lemma get_data_returns_whole_file_witness :
  let d := {| filename := lit "input.txt"; is_test_file := false |} in
  let fs : files := {[ lit "input.txt" := lit "12" ++ [newline] ++ lit "14" ]} in
  exists lines,
    get_data fs d = Ok lines
    /\ concat lines = lit "12" ++ [newline] ++ lit "14"
    /\ Forall ends_with_newline (removelast lines).
Proof.
  intros d fs.
  destruct (get_data_returns_whole_file fs d
              (lit "12" ++ [newline] ++ lit "14") eq_refl eq_refl)
    as (lines & Hdata & Hconcat & _ & Hends & _).
  exists lines. repeat split; assumption.
Defined.

Lemma read_content_lines (lines : list str) (rest : list str) :
  Forall (fun l => l <> []) lines ->
  forall content, content <> [] ->
  read_content content (lines ++ [] :: rest)
  = (content ++ concat (map (cons newline) lines), rest).
Proof.
  induction lines as [|l lines IH]; intros Hne content Hc.
  - cbn. now rewrite app_nil_r.
  - inversion Hne as [|? ? Hl Hlines]; subst.
    cbn [app read_content].
    destruct l as [|c l]; [contradiction|].
    destruct content as [|c0 content]; [contradiction|].
    rewrite IH; [|exact Hlines|discriminate].
    cbn [map concat app]. f_equal. f_equal.
    rewrite <- ?app_assoc. reflexivity.
Qed.

Lemma read_content_all (stdin : list str) :
  Forall (fun l => l <> []) stdin ->
  forall content, snd (read_content content stdin) = [].
Proof.
  induction stdin as [|l stdin IH]; intros Hne content; [reflexivity|].
  inversion Hne as [|? ? Hl Hrest]; subst.
  cbn [read_content]. destruct l as [|c l]; [contradiction|].
  now apply IH.
Qed.

Lemma readlines_one (l : str) :
  l <> [] -> ~ In newline l -> readlines l = [l].
Proof.
  induction l as [|c l IH]; intros Hne Hnl; [contradiction|].
  cbn [readlines]. destruct (N.eqb_spec c newline) as [->|Hc].
  - exfalso. apply Hnl. now left.
  - destruct l as [|c' l]; [reflexivity|].
    rewrite IH; [reflexivity|discriminate|].
    intros Hin. apply Hnl. now right.
Qed.

Lemma readlines_joined (l : str) (lines : list str) :
  Forall (fun l => l <> [] /\ ~ In newline l) (l :: lines) ->
  readlines (l ++ concat (map (cons newline) lines)) = with_newlines (l :: lines).
Proof.
  revert l. induction lines as [|l' lines IH]; intros l Hall;
    inversion Hall as [|? ? [Hl Hnl] Hrest]; subst.
  - cbn [map concat]. rewrite app_nil_r. now apply readlines_one.
  - cbn [map concat app].
    rewrite readlines_app by exact Hnl.
    rewrite IH by exact Hrest. reflexivity.
Qed.

Lemma replace_from_absent (old new s : str) (c : N) (old' : str) :
  old = c :: old' -> ~ In c s -> replace_from old new O s = s.
Proof.
  intros ->. induction s as [|a s IH]; intros Hc; [reflexivity|].
  cbn [replace_from startswith].
  destruct (N.eqb_spec a c) as [->|Ha].
  - exfalso. apply Hc. now left.
  - cbn [andb]. f_equal. apply IH. intros Hin. apply Hc. now right.
Qed.

Lemma strip_header (r' : str) (c : N) :
  isspace c = false ->
  strip (result_prefix ++ (r' ++ [c]) ++ [newline])
  = result_prefix ++ r' ++ [c].
Proof.
  intros Hc. unfold strip.
  change (lstrip (result_prefix ++ (r' ++ [c]) ++ [newline]))
    with (result_prefix ++ (r' ++ [c]) ++ [newline]).
  unfold rstrip. rewrite !rev_app_distr. cbn [rev app lstrip].
  rewrite isspace_newline, Hc.
  change (c :: rev r' ++ rev result_prefix)
    with ([c] ++ rev r' ++ rev result_prefix).
  rewrite !rev_app_distr, !rev_involutive. cbn [rev app].
  now rewrite <- app_assoc.
Qed.

Lemma joined_without (x : N) (lines : list str) :
  x <> newline -> Forall (fun l => ~ In x l) lines ->
  ~ In x (concat (map (cons newline) lines)).
Proof.
  intros Hx. induction lines as [|l lines IH]; intros Hall; [intros []|].
  inversion Hall as [|? ? Hl Hrest]; subst. cbn [map concat app].
  intros [Heq|Hin]; [now apply Hx|].
  apply in_app_or in Hin as [Hin|Hin]; [now apply Hl|now apply IH].
Qed.

(** The text that [read_test_file] composes, read by [get_data] and
    [get_expected_result] from a file that presents it as it is. *)
Lemma composed_fixture_reads_back (d : PuzzleData)
  (lines : list str) (r' : str) (c : N) (rest : list str)
  (Hlines : Forall (fun l => l <> [] /\ console_line l) lines)
  (Hr : console_line r') (Hc : isspace c = false)
  (Htest : is_test_file d = true) :
  exists text,
    read_test_file (lines ++ [] :: (r' ++ [c]) :: rest) = Ok (text, rest)
    /\ (Forall (fun l => ~ In carriage_return l) lines ->
        ~ In carriage_return r' -> ~ In carriage_return text)
    /\ (forall fs : files, fs !! filename d = Some text ->
        get_data fs d = Ok (with_newlines lines)
        /\ get_expected_result fs d
           = Ok (Some (replace (r' ++ [c]) result_prefix []))
        /\ (~ In 82%N (r' ++ [c]) ->
            get_expected_result fs d = Ok (Some (r' ++ [c])))).
Proof.
  set (r := r' ++ [c]).
  assert (Hnl : c <> newline) by (intros ->; discriminate Hc).
  assert (Hcr : c <> carriage_return) by (intros ->; discriminate Hc).
  assert (Hrn : ~ In newline r).
  { unfold r. intros Hin. apply in_app_or in Hin as [Hin|[Heq|[]]];
      [now apply Hr|now apply Hnl]. }
  assert (Hcontent : exists content,
            read_content [] (lines ++ [] :: r :: rest) = (content, r :: rest)
            /\ readlines content = with_newlines lines
            /\ (Forall (fun l => ~ In carriage_return l) lines ->
                ~ In carriage_return content)).
  { destruct lines as [|l lines].
    - exists []. repeat split. intros _ [].
    - inversion Hlines as [|? ? [Hl Hnl'] Hrest]; subst.
      exists (l ++ concat (map (cons newline) lines)). split; [|split].
      + cbn [app read_content]. destruct l as [|c0 l]; [contradiction|].
        cbn [app]. apply read_content_lines; [|discriminate].
        eapply Forall_impl; [exact Hrest|]. now intros ? [? _].
      + now apply readlines_joined.
      + intros Hall Hin. inversion Hall as [|? ? Hl' Hlines']; subst.
        apply in_app_or in Hin as [Hin|Hin]; [now apply Hl'|].
        revert Hin. now apply joined_without. }
  destruct Hcontent as (content & Hread & Hlinesback & Hplain).
  exists (test_file_text r content). unfold read_test_file.
  rewrite Hread. split; [reflexivity|]. split.
  { intros Hall Hr' Hin. unfold test_file_text in Hin.
    apply in_app_or in Hin as [Hin|Hin];
      [revert Hin; cbn; unfold carriage_return; intuition discriminate|].
    apply in_app_or in Hin as [Hin|Hin].
    { unfold r in Hin. apply in_app_or in Hin as [Hin|[Heq|[]]];
        [now apply Hr'|now apply Hcr]. }
    apply in_app_or in Hin as [Hin|Hin];
      [revert Hin; cbn; unfold carriage_return, newline;
       intuition discriminate|].
    apply in_app_or in Hin as [Hin|Hin];
      [revert Hin; cbn; unfold carriage_return; intuition discriminate|].
    apply in_app_or in Hin as [Hin|Hin];
      [revert Hin; cbn; unfold carriage_return, newline;
       intuition discriminate|].
    now apply Hplain. }
  intros fs Hfile.
  assert (Hexp : get_expected_result fs d
                 = Ok (Some (replace r result_prefix []))).
  { unfold get_expected_result, open. rewrite Hfile, Htest.
    cbn [negb mbind result_bind]. unfold test_file_text.
    rewrite (app_assoc result_prefix r).
    rewrite readline_app.
    2:{ intros Hin. apply in_app_or in Hin as [Hin|Hin];
          [now apply result_prefix_no_newline|now apply Hrn]. }
    cbn [app readline]. rewrite N.eqb_refl.
    rewrite <- app_assoc. unfold r. rewrite (strip_header r' c Hc).
    rewrite startswith_app. cbn [negb]. now rewrite replace_prefix. }
  split; [|split; [exact Hexp|]].
  - unfold get_data, open. rewrite Hfile, Htest.
    cbn [negb mbind result_bind]. unfold test_file_text.
    rewrite app_assoc. cbn [app].
    rewrite readlines_app.
    2:{ intros Hin. apply in_app_or in Hin as [Hin|Hin];
          [now apply result_prefix_no_newline|now apply Hrn]. }
    rewrite (readlines_app (lit "Input:")).
    2:{ cbn. unfold newline. intuition discriminate. }
    cbn [drop]. now rewrite Hlinesback.
  - intros Hno. rewrite Hexp. unfold replace.
    now rewrite (replace_from_absent result_prefix [] r 82%N (lit "esult: ")).
Qed.

(** A text without a carriage return is read from a file as it was
    written to it, whether newlines are written as they are or with a
    carriage return before them. *)
Lemma written_text_is_presented (linesep s : str) :
  linesep = [newline] \/ linesep = [carriage_return; newline] ->
  ~ In carriage_return s ->
  universal_newlines false (write_newlines linesep s) = s.
Proof.
  intros Hsep. induction s as [|a s IH]; intros Hs; [reflexivity|].
  assert (Ha : a <> carriage_return) by (intros ->; apply Hs; now left).
  assert (Hs' : ~ In carriage_return s) by (intros Hin; apply Hs; now right).
  specialize (IH Hs'). unfold write_newlines in *. cbn [flat_map].
  destruct (N.eqb_spec a newline) as [->|Hnl].
  - destruct Hsep as [->| ->]; cbn; now rewrite IH.
  - cbn [app universal_newlines].
    destruct (N.eqb_spec a carriage_return) as [|_]; [contradiction|].
    destruct (N.eqb_spec a newline) as [|_]; [contradiction|].
    cbn [andb]. now rewrite IH.
Qed.

(** X16: what is typed for a fixture is read back as it was typed, through
    the file: [read_test_file] composes a text from the console lines
    [lines], an empty line and the expected result [r]; once [save_input]
    wrote it, with the newlines of either kind of system, [get_data]
    returns [lines], each with a newline but the last, and
    [get_expected_result] returns [r] without its occurrences of
    [Result: ]: [r] itself when it has no capital R.  The lines hold no
    carriage return, the encoding of the file has every character of the
    text, and [r] ends with a character that is not whitespace. *)
Theorem fixture_round_trip (encodes : N -> bool) (linesep : str)
  (fs : files) (d : PuzzleData)
  (lines : list str) (r' : str) (c : N) (rest : list str)
  (Hsep : linesep = [newline] \/ linesep = [carriage_return; newline])
  (Hlines : Forall (fun l => l <> [] /\ plain_line l) lines)
  (Hr : plain_line r') (Hc : isspace c = false)
  (Htest : is_test_file d = true) :
  exists text,
    read_test_file (lines ++ [] :: (r' ++ [c]) :: rest) = Ok (text, rest)
    /\ (forallb encodes text = true ->
        exists fs',
          save_input encodes linesep text (filename d) fs = (Ok tt, fs')
          /\ get_data fs' d = Ok (with_newlines lines)
          /\ get_expected_result fs' d
             = Ok (Some (replace (r' ++ [c]) result_prefix []))
          /\ (~ In 82%N (r' ++ [c]) ->
              get_expected_result fs' d = Ok (Some (r' ++ [c])))).
Proof.
  destruct (composed_fixture_reads_back d lines r' c rest)
    as (text & Hread & Hplain & Hback); [|apply Hr|exact Hc|exact Htest|].
  { eapply Forall_impl; [exact Hlines|].
    intros l [Hl [Hnl _]]. now split. }
  exists text. split; [exact Hread|]. intros Henc.
  exists (<[filename d := text]> fs). unfold save_input. rewrite Henc.
  rewrite (written_text_is_presented linesep text Hsep).
  2:{ apply Hplain; [|apply Hr].
      eapply Forall_impl; [exact Hlines|]. now intros l [_ [_ Hcr]]. }
  split; [reflexivity|]. apply Hback. apply lookup_insert_eq.
Qed.

Lemma fixture_round_trip_witness :
  let text := test_file_text (lit "25") (lit "F10" ++ [newline] ++ lit "N3") in
  let d := {| filename := lit "test1.txt"; is_test_file := true |} in
  read_test_file [lit "F10"; lit "N3"; []; lit "25"] = Ok (text, [])
  /\ exists fs',
       save_input (fun c => (c <? 128)%N) [carriage_return; newline] text
         (lit "test1.txt") (∅ : files) = (Ok tt, fs')
       /\ get_data fs' d = Ok [lit "F10" ++ [newline]; lit "N3"]
       /\ get_expected_result fs' d = Ok (Some (lit "25")).
Proof.
  intros text d.
  destruct (fixture_round_trip (fun c => (c <? 128)%N)
              [carriage_return; newline] (∅ : files) d
              [lit "F10"; lit "N3"] (lit "2") 53%N [])
    as (text' & Hread & Hback).
  - now right.
  - repeat constructor; try discriminate;
      unfold carriage_return, newline; cbn; intuition discriminate.
  - split; unfold carriage_return, newline; cbn; intuition discriminate.
  - reflexivity.
  - reflexivity.
  - assert (Ht : text' = text).
    { change (Ok (text, @nil str) = Ok (text', @nil str)) in Hread.
      now injection Hread. }
    subst text'. destruct (Hback eq_refl) as (fs' & Hsave & Hdata & _ & Hexp).
    split; [exact Hread|]. exists fs'.
    split; [exact Hsave|]. split; [exact Hdata|].
    apply Hexp. cbn. intuition discriminate.
Defined.

Lemma readline_blank (r rest : str) :
  Forall (fun c => isspace c = true) r ->
  Forall (fun c => isspace c = true) (readline (r ++ newline :: rest)).
Proof.
  induction r as [|c r IH]; intros Hr.
  - cbn. repeat constructor.
  - inversion Hr as [|? ? Hc Hr']; subst. cbn [app readline].
    destruct (c =? newline)%N; repeat constructor; auto.
Qed.

Lemma lstrip_blank (w x : str) :
  Forall (fun c => isspace c = true) w -> lstrip (w ++ x) = lstrip x.
Proof.
  induction w as [|c w IH]; intros Hw; [reflexivity|].
  inversion Hw as [|? ? Hc Hw']; subst. cbn [app lstrip].
  rewrite Hc. now apply IH.
Qed.

Lemma rstrip_blank (a w : str) :
  Forall (fun c => isspace c = true) w -> rstrip (a ++ w) = rstrip a.
Proof.
  intros Hw. unfold rstrip. rewrite rev_app_distr.
  rewrite lstrip_blank; [reflexivity|].
  apply List.Forall_forall. intros c Hin. apply in_rev in Hin.
  rewrite List.Forall_forall in Hw. now apply Hw.
Qed.

(** X17: a fixture typed with an expected result that is empty or all
    whitespace cannot be read back: [get_expected_result] raises on the
    file that [read_test_file] composed. *)
Theorem blank_expected_result_is_rejected (fs : files) (d : PuzzleData)
  (r content : str)
  (Hblank : Forall (fun c => isspace c = true) r)
  (Htest : is_test_file d = true)
  (Hfile : fs !! filename d = Some (test_file_text r content)) :
  get_expected_result fs d
  = Raise (Exception (lit "Invalid test file " ++ filename d
                        ++ lit "; it should start with 'Result: '")).
Proof.
  unfold get_expected_result, open. rewrite Hfile, Htest.
  cbn [negb mbind result_bind]. unfold test_file_text.
  rewrite readline_app by apply result_prefix_no_newline.
  cbn [app].
  pose proof (readline_blank r (lit "Input:" ++ newline :: content) Hblank)
    as Hw.
  set (w := readline (r ++ newline :: lit "Input:" ++ newline :: content))
    in *.
  unfold strip.
  change (lstrip (result_prefix ++ w)) with (result_prefix ++ w).
  rewrite (rstrip_blank result_prefix w Hw). reflexivity.
Qed.

Lemma blank_expected_result_is_rejected_witness :
  let text := test_file_text [] (lit "F10") in
  let fs : files := {[ lit "test1.txt" := text ]} in
  let d := {| filename := lit "test1.txt"; is_test_file := true |} in
  read_test_file [lit "F10"; []; []] = Ok (text, [])
  /\ raises (get_expected_result fs d).
Proof.
  intros text fs d. split; [reflexivity|].
  eexists.
  exact (blank_expected_result_is_rejected fs d [] (lit "F10")
           (List.Forall_nil _) eq_refl eq_refl).
Defined.

(** X18: when the console ends before the expected result was typed,
    with or without the empty line that ends the input, [read_test_file]
    raises [EOFError] and nothing is composed. *)
Theorem read_test_file_needs_result (lines : list str)
  (Hlines : Forall (fun l => l <> []) lines) :
  read_test_file lines = Raise EOFError
  /\ read_test_file (lines ++ [[]]) = Raise EOFError.
Proof.
  split.
  - unfold read_test_file.
    pose proof (read_content_all lines Hlines []) as Hall.
    destruct (read_content [] lines) as [content stdin']. cbn in Hall.
    now rewrite Hall.
  - unfold read_test_file.
    destruct lines as [|l lines]; [reflexivity|].
    inversion Hlines as [|? ? Hl Hrest]; subst.
    cbn [app read_content]. destruct l as [|c l]; [contradiction|].
    cbn [app]. rewrite (read_content_lines lines [] Hrest) by discriminate.
    reflexivity.
Qed.

Lemma read_test_file_needs_result_witness :
  read_test_file [lit "F10"; lit "N3"] = Raise EOFError
  /\ read_test_file ([lit "F10"; lit "N3"] ++ [[]]) = Raise EOFError.
Proof.
  apply (read_test_file_needs_result [lit "F10"; lit "N3"]).
  repeat constructor; discriminate.
Defined.

End Loader_more.

(** ** The runner: a solution that raises *)

Section Runner_more.

Import Advent.

Context {Time : Type} (elapsed : Time -> Time -> str).
Context {Res : Type} `{Str Res}.

(** [run] prints its line only after the solution has returned: when
    the solution raises, [run] raises the same exception, whatever the
    expected result; it prints nothing and does not read the clock
    again. *)
Theorem run_propagates_exception (day part : Z)
  (func : world -> result Res * world) (expected_result : option str)
  (w w2 : world (Time := Time)) (e : exn)
  (Hfunc : func (snd (perf_counter w)) = (Raise e, w2)) :
  fst (run elapsed day part func expected_result w) = Raise e
  /\ stdout (snd (run elapsed day part func expected_result w)) = stdout w2
  /\ reads (snd (run elapsed day part func expected_result w)) = reads w2.
Proof.
  assert (Hrun : run elapsed day part func expected_result w = (Raise e, w2)).
  { unfold run, perf_counter in *. cbn [snd] in Hfunc. now rewrite Hfunc. }
  rewrite Hrun. repeat split.
Qed.

End Runner_more.

Section Runner_more_example.

Import Advent Samples SamplesAux.

Lemma run_propagates_exception_witness :
  fst (run ms_elapsed 12 1 (fails KeyError) (Some (lit "25")) idle)
  = Raise KeyError
  /\ stdout (snd (run ms_elapsed 12 1 (fails KeyError) (Some (lit "25")) idle))
     = [].
Proof.
  destruct (run_propagates_exception ms_elapsed 12 1 (fails KeyError)
              (Some (lit "25")) idle _ KeyError eq_refl) as (H1 & H2 & _).
  split; [exact H1|exact H2].
Defined.

End Runner_more_example.

(** ** Decimal numerals: [str] and [int] *)

Section Decimal_facts.

Import Advent Runner.

Ltac read_digit :=
  cbn [NilEmpty.string_of_uint Decimal.nb_digits scan_digits];
  match goal with
  | |- context [is_digit ?c] =>
      change (is_digit c) with true;
      let v := eval vm_compute in (digit_value c) in
      change (digit_value c) with v
  end;
  cbv iota.

Lemma scan_uint_pos (u : Decimal.uint) :
  forall (p : positive) (n : nat),
  scan_digits false (Z.pos p) n (NilEmpty.string_of_uint u)
  = Some (Z.pos (Pos.of_uint_acc u p), (n + Decimal.nb_digits u)%nat,
          EmptyString).
Proof.
  induction u; intros p n;
    [cbn; now rewrite Nat.add_0_r|..];
    read_digit; cbn [Pos.of_uint_acc];
    rewrite Nat.add_succ_r, <- Nat.add_succ_l, <- IHu;
    f_equal; lia.
Qed.

Lemma scan_uint_zero (u : Decimal.uint) :
  forall n : nat,
  scan_digits false 0 n (NilEmpty.string_of_uint u)
  = Some (Z.of_N (Pos.of_uint u), (n + Decimal.nb_digits u)%nat, EmptyString).
Proof.
  induction u; intros n;
    [cbn; now rewrite Nat.add_0_r|..];
    read_digit; cbn [Pos.of_uint];
    rewrite Nat.add_succ_r, <- Nat.add_succ_l;
    [apply IHu|..];
    cbn [Z.of_N]; rewrite <- scan_uint_pos; reflexivity.
Qed.

Lemma to_uint_digits (z : Z) :
  0 <= z ->
  exists u c s,
    decimal z = NilEmpty.string_of_uint u
    /\ NilEmpty.string_of_uint u = String c s
    /\ is_digit c = true
    /\ Z.of_N (Pos.of_uint u) = z.
Proof.
  intros Hz. destruct z as [|p|p]; [| |lia].
  - exists (Decimal.D0 Decimal.Nil), "0"%char, EmptyString.
    repeat split.
  - pose proof (DecimalPos.Unsigned.to_uint_nonnil p) as Hnn.
    pose proof (DecimalPos.Unsigned.of_to p) as Hof.
    exists (Pos.to_uint p).
    unfold decimal, NilZero.string_of_int, NilZero.string_of_uint.
    cbn [Z.to_int].
    destruct (Pos.to_uint p) as [|u|u|u|u|u|u|u|u|u|u]; [contradiction|..];
      do 2 eexists; (split; [reflexivity|]); (split; [reflexivity|]);
      (split; [reflexivity|]); now rewrite Hof.
Qed.

Lemma string_of_uint_all_digits (u : Decimal.uint) :
  leading_digits (NilEmpty.string_of_uint u) = NilEmpty.string_of_uint u.
Proof.
  induction u; [reflexivity|..];
    cbn [NilEmpty.string_of_uint leading_digits];
    match goal with
    | |- context [is_digit ?c] => change (is_digit c) with true
    end; cbv iota; now rewrite IHu.
Qed.

(** [int] reads back what [str] writes for a number that is not
    negative. *)
Lemma int_decimal (z : Z) : 0 <= z -> int (decimal z) = Ok z.
Proof.
  intros Hz. destruct (to_uint_digits z Hz) as (u & c & s & -> & Hs & Hc & Hv).
  pose proof (scan_uint_zero u 0) as Hscan.
  assert (Hn : exists m, Decimal.nb_digits u = S m).
  { destruct u; [discriminate Hs|..]; cbn; eauto. }
  destruct Hn as [m Hm]. rewrite Hm, Hv in Hscan. cbn [Nat.add] in Hscan.
  rewrite Hs in *.
  assert (Hsp : int_space c = false).
  { unfold is_digit, int_space in *. destruct (N_of_ascii c); [discriminate|].
    apply andb_prop in Hc as [H1 H2].
    apply N.leb_le in H1, H2.
    repeat match goal with
           | |- (_ || _)%bool = false => apply orb_false_intro
           | |- (_ && _)%bool = false => apply andb_false_intro2
           end; try (apply N.leb_gt; lia); apply N.eqb_neq; lia. }
  assert (Hus : is_underscore c = false).
  { unfold is_digit, is_underscore in *.
    apply andb_prop in Hc as [H1 H2]. apply N.leb_le in H1, H2.
    apply N.eqb_neq. lia. }
  assert (Hsign : c <> "+"%char /\ c <> "-"%char).
  { split; intros ->; discriminate Hc. }
  unfold int. cbn [skip_space]. rewrite Hsp.
  assert (Hbody : match String c s with
                  | String "+" s' => unsigned_int s'
                  | String "-" s' => Z.opp <$> unsigned_int s'
                  | _ => unsigned_int (String c s)
                  end = unsigned_int (String c s)).
  { destruct Hsign as [Hplus Hminus].
    destruct c as [[] [] [] [] [] [] [] []]; try reflexivity;
      [now contradiction Hminus|now contradiction Hplus]. }
  cbv zeta. rewrite Hbody. unfold unsigned_int. rewrite Hus, Hscan.
  reflexivity.
Qed.

Lemma match_module_decimal (z : Z) :
  0 <= z ->
  match_module ("runners.day" ++ decimal z) = Some (decimal z).
Proof.
  intros Hz. destruct (to_uint_digits z Hz) as (u & c & s & Hd & Hs & Hc & _).
  set (x := decimal z) in *. unfold match_module. simpl. subst x.
  change (EmptyString ++ decimal z)%string with (decimal z).
  rewrite Hd, string_of_uint_all_digits, Hs. reflexivity.
Qed.

Lemma match_module_negative (z : Z) :
  z < 0 -> match_module ("runners.day" ++ decimal z) = None.
Proof.
  intros Hz. destruct z as [|p|p]; [lia|lia|]. reflexivity.
Qed.

End Decimal_facts.

(** ** The dispatch of the runner *)

Section Dispatch_facts.

Import Advent Runner.

Context {Time : Type} (elapsed : Time -> Time -> str).
Context {Res : Type} `{Str Res}.
Context (get_puzzle_data : Z -> @state Time -> result PuzzleData * @state Time)
        (import_module :
           string -> @state Time -> result (@day_module Time Res) * @state Time).

Local Abbreviation run_puzzle := (run_puzzle elapsed get_puzzle_data import_module).
Local Abbreviation run_day := (run_day elapsed get_puzzle_data import_module).

(** X19: [run_puzzle] names the module after the day, and
    [run_puzzle_module] reads the day back from the name: for a day that
    is not negative the work is done for that very day; for a negative day
    the name is refused as invalid before anything is loaded. *)
Theorem run_puzzle_reads_day_back (day : Z) (part : option Z)
  (st : @state Time) :
  (0 <= day ->
   run_puzzle day part st = run_day day ("runners.day" ++ decimal day) part st)
  /\ (day < 0 ->
      run_puzzle day part st
      = (Raise (Exception (lit "Invalid module name: "
                             ++ lit ("runners.day" ++ decimal day))), st)).
Proof.
  split; intros Hday; unfold Runner.run_puzzle, run_puzzle_module.
  - now rewrite (match_module_decimal day Hday), (int_decimal day Hday).
  - now rewrite (match_module_negative day Hday).
Qed.

(** X20: a fixture whose first line, stripped, does not start with
    [Result: ] stops the run before the module is imported: the exception
    of [get_expected_result] is raised, no part runs and nothing is
    printed. *)
Theorem bad_header_stops_run (day : Z) (module : string) (part : option Z)
  (st st1 : @state Time) (d : PuzzleData) (text : str)
  (Hload : get_puzzle_data day st = (Ok d, st1))
  (Htest : is_test_file d = true)
  (Hfile : fst st1 !! filename d = Some text)
  (Hbad : startswith (strip (readline text)) result_prefix = false) :
  run_day day module part st
  = (Raise (Exception (lit "Invalid test file " ++ filename d
                         ++ lit "; it should start with 'Result: '")), st1).
Proof.
  unfold Runner.run_day. rewrite Hload.
  unfold get_data, get_expected_result, open. rewrite Hfile, Htest.
  cbn [negb mbind result_bind]. now rewrite Hbad.
Qed.

(** X21: when both parts are there and asked for, part 1 runs first and
    part 2 after it, on the same input lines and against the same expected
    result, each printing its own line; asked for alone, part 1 is the
    only one to run.  Where the output cannot encode the line of a part,
    the [UnicodeEncodeError] of its [print] ends the run there: after
    part 1 it keeps part 2 from running. *)
Theorem both_parts_share_input_and_expected (day : Z) (module : string)
  (st st1 st2 : @state Time) (d : PuzzleData)
  (input : list str) (expected : option str) (m : @day_module Time Res)
  (f1 f2 : @solution Time Res) (v1 v2 : Res) (w1 w2 : @world Time)
  (Hload : get_puzzle_data day st = (Ok d, st1))
  (Hdata : get_data (fst st1) d = Ok input)
  (Hexpected : get_expected_result (fst st1) d = Ok expected)
  (Himport : import_module module st1 = (Ok m, st2))
  (Hpart1 : part1 m = Some f1) (Hpart2 : part2 m = Some f2)
  (Hf1 : f1 input (snd (perf_counter (snd st2))) = (Ok v1, w1)) :
  let line1 :=
    summary elapsed day 1 v1 (clock (snd st2) (reads (snd st2)))
      (clock w1 (reads w1)) ++ comparison expected v1 in
  let stopped1 :=
    (Raise UnicodeEncodeError, (fst st2, snd (perf_counter w1))) in
  run_day day module (Some 1) st
  = (if encodable w1 line1
     then (Ok tt, (fst st2, after_run w1 line1)) else stopped1)
  /\ (encodable w1 line1 = false -> run_day day module None st = stopped1)
  /\ (encodable w1 line1 = true ->
      f2 input (snd (perf_counter (after_run w1 line1))) = (Ok v2, w2) ->
      let line2 :=
        summary elapsed day 2 v2 (clock w1 (S (reads w1)))
          (clock w2 (reads w2)) ++ comparison expected v2 in
      run_day day module None st
      = (if encodable w2 line2
         then (Ok tt, (fst st2, after_run w2 line2))
         else (Raise UnicodeEncodeError, (fst st2, snd (perf_counter w2))))).
Proof.
  intros line1 stopped1. unfold Runner.run_day.
  rewrite Hload, Hdata, Hexpected, Himport, Hpart1, Hpart2.
  unfold run_part. cbn [Z.eqb Pos.eqb fst snd].
  rewrite (run_returns elapsed day 1 (f1 input) expected _ _ _ Hf1).
  fold line1. repeat split.
  - now destruct (encodable w1 line1).
  - intros Henc. now rewrite Henc.
  - intros Henc Hf2. rewrite Henc. cbn [fst snd].
    rewrite (run_returns elapsed day 2 (f2 input) expected _ _ _ Hf2).
    cbn [after_run clock reads].
    now destruct (encodable w2 _).
Qed.

End Dispatch_facts.

(** ** The names of the cached files *)

Section Cache_names.

Import Advent Loader LoaderAux.

Lemma lit_inj (s s' : string) : lit s = lit s' -> s = s'.
Proof.
  unfold lit. intros Heq.
  rewrite <- (string_of_list_ascii_of_string s),
          <- (string_of_list_ascii_of_string s').
  f_equal. revert Heq.
  generalize (list_ascii_of_string s) (list_ascii_of_string s').
  induction l as [|a l IH]; intros [|a' l'] Heq; try discriminate;
    [reflexivity|].
  cbn [map] in Heq. injection Heq as Ha Hl.
  f_equal; [|now apply IH].
  rewrite <- (ascii_N_embedding a), <- (ascii_N_embedding a'). now f_equal.
Qed.

Lemma to_int_not_nil (z : Z) :
  Z.to_int z <> Decimal.Pos Decimal.Nil /\ Z.to_int z <> Decimal.Neg Decimal.Nil.
Proof.
  destruct z as [|p|p]; cbn [Z.to_int]; split; try discriminate;
    intros [= Hp]; exact (DecimalPos.Unsigned.to_uint_nonnil p Hp).
Qed.

(** [str] of an integer tells the integer. *)
Lemma to_str_inj (z z' : Z) : to_str z = to_str z' -> z = z'.
Proof.
  intros Heq. apply lit_inj in Heq.
  apply DecimalZ.to_int_inj.
  destruct (to_int_not_nil z) as [H1 H2], (to_int_not_nil z') as [H1' H2'].
  pose proof (NilZero.isi _ H1 H2) as Hi.
  pose proof (NilZero.isi _ H1' H2') as Hi'.
  rewrite Heq in Hi. rewrite Hi in Hi'. now injection Hi'.
Qed.

Lemma string_of_uint_chars (u : Decimal.uint) :
  Forall numeral_char (lit (NilEmpty.string_of_uint u)).
Proof.
  induction u; cbn [NilEmpty.string_of_uint]; [constructor|..];
    unfold lit in *; cbn [list_ascii_of_string map];
    (apply Forall_cons_2; [unfold numeral_char; right; cbn; lia|exact IHu]).
Qed.

Lemma to_str_chars (z : Z) : Forall numeral_char (to_str z).
Proof.
  unfold to_str, Z_Str, NilZero.string_of_int, NilZero.string_of_uint.
  destruct z as [|p|p]; cbn [Z.to_int].
  - apply Forall_cons_2; [unfold numeral_char; right; cbn; lia|constructor].
  - pose proof (DecimalPos.Unsigned.to_uint_nonnil p) as Hnn.
    pose proof (string_of_uint_chars (Pos.to_uint p)) as Hc.
    destruct (Pos.to_uint p); [contradiction|..]; exact Hc.
  - pose proof (DecimalPos.Unsigned.to_uint_nonnil p) as Hnn.
    pose proof (string_of_uint_chars (Pos.to_uint p)) as Hc.
    unfold lit. cbn [list_ascii_of_string map].
    apply Forall_cons_2; [unfold numeral_char; now left|].
    destruct (Pos.to_uint p); [contradiction|..]; exact Hc.
Qed.

Lemma split_at_separator (sep : N) (a a' b b' : str) :
  ~ In sep a -> ~ In sep a' ->
  a ++ sep :: b = a' ++ sep :: b' -> a = a' /\ b = b'.
Proof.
  revert a'. induction a as [|c a IH]; intros [|c' a'] Ha Ha' Heq;
    cbn [app] in Heq.
  - now injection Heq.
  - injection Heq as -> _. exfalso. apply Ha'. now left.
  - injection Heq as -> _. exfalso. apply Ha. now left.
  - injection Heq as -> Heq.
    destruct (IH a') as [-> ->]; auto.
    + intros Hin. apply Ha. now right.
    + intros Hin. apply Ha'. now right.
Qed.

Lemma numeral_no_char (c : N) (z : Z) :
  ~ numeral_char c -> ~ In c (to_str z).
Proof.
  intros Hc Hin. pose proof (to_str_chars z) as Hall.
  rewrite List.Forall_forall in Hall. exact (Hc (Hall c Hin)).
Qed.

(** X22: every day and every fixture has a cache file of its own: equal
    names mean the same day and the same selector, where the selector 0
    counts as none; the real input and a fixture never share a file. *)
Theorem cache_names_are_distinct (t t' : option Z) (day day' : Z)
  (Hname : input_cache_name t day = input_cache_name t' day') :
  day = day' /\ selector t = selector t'.
Proof.
  unfold input_cache_name, input_cache_dir in Hname.
  rewrite <- !app_assoc in Hname. apply app_inv_head in Hname.
  change (lit "/") with [47%N] in Hname. cbn [app] in Hname.
  apply split_at_separator in Hname as [Hday Hfile];
    [|apply numeral_no_char; unfold numeral_char; lia ..].
  split; [now apply to_str_inj|].
  unfold file_name, selector in *.
  destruct (truthy t) eqn:Ht, (truthy t') eqn:Ht'; cbn [negb] in Hfile.
  - apply app_inv_head in Hfile. apply app_inv_tail in Hfile.
    destruct t as [n|], t' as [n'|]; try discriminate.
    cbn [format_option] in Hfile. f_equal. now apply to_str_inj.
  - discriminate Hfile.
  - discriminate Hfile.
  - reflexivity.
Qed.

Lemma cache_names_are_distinct_witness :
  12 = 12 /\ selector (Some 0) = selector None.
Proof.
  exact (cache_names_are_distinct (Some 0) None 12 12 eq_refl).
Defined.

Context {OS : Type}
  (path_exists : str -> OS -> bool)
  (ask_test_file : str -> OS -> result str * OS)
  (fetch_input : Z -> OS -> result str * OS)
  (save_input : str -> str -> str -> OS -> result unit * OS).

Local Abbreviation get_puzzle_data :=
  (get_puzzle_data path_exists ask_test_file fetch_input save_input).

(** X23: fixture 0 cannot be chosen: with the selector 0 the loader does
    what it does without a selector (the file is [input.txt], a missing
    one is fetched, not asked for), and what it returns is no fixture:
    [get_expected_result] is [None] for it. *)
Theorem selector_zero_is_no_selector (day : Z) (os : OS) :
  get_puzzle_data (Some 0) day os = get_puzzle_data None day os
  /\ forall d os' fs,
       get_puzzle_data (Some 0) day os = (Ok d, os') ->
       filename d = lit ".data/day" ++ to_str day ++ lit "/input.txt"
       /\ get_expected_result fs d = Ok None.
Proof.
  split; [reflexivity|].
  intros d os' fs Hd. unfold Loader.get_puzzle_data in Hd.
  cbn [truthy Z.eqb negb] in Hd.
  assert (Hshape : filename d = input_cache_name (Some 0) day
                   /\ is_test_file d = false).
  { destruct (path_exists (input_cache_name (Some 0) day) os).
    - injection Hd as <- _. split; reflexivity.
    - destruct (fetch_input day os) as [[content|e] os1]; [|discriminate].
      destruct (save_input content (input_cache_dir day)
                  (input_cache_name (Some 0) day) os1) as [[u|e] os2];
        [|discriminate].
      injection Hd as <- _. split; reflexivity. }
  destruct Hshape as [Hname Htest]. split.
  - rewrite Hname. unfold input_cache_name, input_cache_dir, file_name.
    cbn [truthy Z.eqb negb]. now rewrite <- app_assoc.
  - unfold get_expected_result. now rewrite Htest.
Qed.

End Cache_names.

Section Dispatch_examples.

Import Advent Samples Loader Runner DispatchSamples.

Lemma run_puzzle_reads_day_back_witness :
  run_puzzle ms_elapsed (given_data test1) (given_module first_part_only)
    (-1) None (good_store, idle)
  = (Raise (Exception (lit "Invalid module name: runners.day-1")),
     (good_store, idle)).
Proof.
  refine (proj2 (run_puzzle_reads_day_back ms_elapsed _ _ (-1) None _) _).
  lia.
Defined.

Lemma bad_header_stops_run_witness :
  run_day ms_elapsed (given_data test1) (given_module first_part_only)
    12 "runners.day12" None (bad_store, idle)
  = (Raise (Exception
              (lit "Invalid test file test1.txt; it should start with 'Result: '")),
     (bad_store, idle)).
Proof.
  exact (bad_header_stops_run ms_elapsed (given_data test1)
           (given_module first_part_only) 12 "runners.day12" None
           (bad_store, idle) (bad_store, idle) test1 bad_fixture
           eq_refl eq_refl eq_refl eq_refl).
Defined.

Lemma both_parts_share_input_and_expected_witness :
  run_day ms_elapsed (given_data test1) (given_module both_parts)
    12 "runners.day12" None (good_store, idle)
  = (Ok tt,
     (good_store,
      {| clock := ms_clock; reads := 4;
         stdout := [lit "Day 12 part 1: 25 (in 1 ms)" ++ check_mark;
                    lit "Day 12 part 2: 26 (in 1 ms)" ++ cross_mark
                      ++ lit " (25 expected)"];
         encodes := utf8 |})).
Proof.
  destruct (both_parts_share_input_and_expected ms_elapsed
              (given_data test1) (given_module both_parts) 12 "runners.day12"
              (good_store, idle) (good_store, idle) (good_store, idle)
              test1 [lit "F10"] (Some (lit "25")) both_parts
              (fun _ => answers 25) (fun _ => answers 26) 25 26
              {| clock := ms_clock; reads := 1; stdout := [];
                 encodes := utf8 |}
              {| clock := ms_clock; reads := 3;
                 stdout := [lit "Day 12 part 1: 25 (in 1 ms)" ++ check_mark];
                 encodes := utf8 |}
              eq_refl eq_refl eq_refl eq_refl eq_refl eq_refl eq_refl)
    as [_ [_ Hboth]].
  exact (Hboth eq_refl eq_refl).
Defined.

Lemma selector_zero_is_no_selector_witness :
  get_puzzle_data all_cached no_console no_network no_disk (Some 0) 12 tt
  = (Ok {| filename := lit ".data/day12/input.txt"; is_test_file := false |},
     tt).
Proof.
  rewrite (proj1 (selector_zero_is_no_selector all_cached no_console
                    no_network no_disk 12 tt)).
  reflexivity.
Defined.

End Dispatch_examples.
